(** * Resume data parser: text extraction, field recovery and intake

    A shallow embedding of [resume_parser.py] and [app.py].

    Python strings are lists of 8-bit code points ([ascii], read as
    Latin-1).  The pure library functions the code relies on
    ([str.strip], [str.lower], [re.sub], [re.findall], [re.search],
    [json.loads]) are modelled by executable definitions; the
    collaborators that are not functions of their arguments (PDF reader,
    rasterizer, OCR engine, generative model, HTTP download, file
    system, row store, clock, environment) are fields of a [World]
    record, each call returning either a value or the fact that it
    raised.  Functions that call collaborators run in a state monad over
    a [Store]: the rows of the sheet and the list of the calls made so
    far, in order.  The [print] diagnostics have no counterpart.

    Left out of the model: characters above U+00FF, the interpreter's
    recursion limit and integer digit limit inside [json.loads], and the
    parsing of the [NumMedia] form field into an integer. *)

From Stdlib Require Import List Ascii String Bool Arith ZArith Lia.
From Stdlib Require Import DecimalString.
Import ListNotations.

Abbreviation length := List.length.

(** ** Python [str] *)

Definition str := list ascii.

Definition L (s : string) : str := list_ascii_of_string s.

Definition dq : ascii := "034"%char.
Definition nl : ascii := "010"%char.
Definition bsl : ascii := "092"%char.

(** [Q] writes a literal in which [~] stands for the double quote. *)
Definition Q (s : string) : str :=
  map (fun c => if Ascii.eqb c "~" then dq else c) (L s).

Definition code (c : ascii) : nat := nat_of_ascii c.

(** [str.isspace] on one code point, which is also what [\s] matches in
    a [str] pattern: U+0009..U+000D, U+001C..U+001F, U+0020, U+0085 and
    U+00A0. *)
Definition is_space (c : ascii) : bool :=
  let n := code c in
  ((9 <=? n) && (n <=? 13)) || ((28 <=? n) && (n <=? 31))
  || (n =? 32) || (n =? 133) || (n =? 160).

Fixpoint lstrip (s : str) : str :=
  match s with
  | [] => []
  | c :: t => if is_space c then lstrip t else s
  end.

Definition rstrip (s : str) : str := rev (lstrip (rev s)).

(** [s.strip()] *)
Definition strip (s : str) : str := rstrip (lstrip s).

(** [str.lower] on one code point: A..Z, and the Latin-1 capitals
    U+00C0..U+00DE except the multiplication sign U+00D7. *)
Definition lower_char (c : ascii) : ascii :=
  let n := code c in
  if ((65 <=? n) && (n <=? 90))
     || ((192 <=? n) && (n <=? 222) && negb (n =? 215))
  then ascii_of_nat (n + 32) else c.

Definition lower (s : str) : str := map lower_char s.

Fixpoint startswith (p s : str) : bool :=
  match p, s with
  | [], _ => true
  | a :: p', b :: s' => Ascii.eqb a b && startswith p' s'
  | _ :: _, [] => false
  end.

Definition endswith (p s : str) : bool := startswith (rev p) (rev s).

(** [p in s] *)
Fixpoint contains (p s : str) : bool :=
  startswith p s ||
  match s with
  | [] => false
  | _ :: t => contains p t
  end.

(** [s.split(sep)[-1]] for a one-character separator. *)
Fixpoint split_last (sep : ascii) (s : str) : str :=
  match s with
  | [] => []
  | c :: t =>
      if existsb (Ascii.eqb sep) t then split_last sep t
      else if Ascii.eqb c sep then t else s
  end.

(** [str(n)] for an integer. *)
Definition str_of_Z (z : Z) : str :=
  L (NilZero.string_of_int (Z.to_int z)).

(** ** Python [re]: a backtracking matcher

    [matches r s] lists, in the order a backtracking matcher tries them,
    the remainders of [s] after each way [r] can match a prefix of [s];
    the head of the list is the match Python reports at that position.
    Quantifiers are greedy. *)

Inductive regex : Type :=
| Chr (p : ascii -> bool)
| Seq (a b : regex)
| Opt (a : regex)
| Star (a : regex)
| Eol.

Fixpoint star_run (step : str -> list str) (fuel : nat) (s : str)
  : list str :=
  match fuel with
  | O => [s]
  | S n =>
      flat_map (star_run step n)
               (filter (fun t => length t <? length s) (step s))
      ++ [s]
  end.

Fixpoint matches (r : regex) (s : str) : list str :=
  match r with
  | Chr p =>
      match s with
      | c :: t => if p c then [t] else []
      | [] => []
      end
  | Seq a b => flat_map (matches b) (matches a s)
  | Opt a => matches a s ++ [s]
  | Star a => star_run (matches a) (length s) s
  | Eol =>
      match s with
      | [] => [s]
      | [c] => if Ascii.eqb c nl then [s] else []
      | _ => []
      end
  end.

(** A literal, read case-sensitively or under [re.IGNORECASE]. *)
Fixpoint lit (s : str) (rest : regex) : regex :=
  match s with
  | [] => rest
  | c :: t => Seq (Chr (Ascii.eqb c)) (lit t rest)
  end.

Fixpoint lit_i (s : str) (rest : regex) : regex :=
  match s with
  | [] => rest
  | c :: t =>
      Seq (Chr (fun x => Ascii.eqb (lower_char x) (lower_char c)))
          (lit_i t rest)
  end.

Definition ws : regex := Star (Chr is_space).
Definition Plus (a : regex) : regex := Seq a (Star a).

(** The first match of [r] at the start of [s], as the matched text's
    length. *)
Definition match_len (r : regex) (s : str) : option nat :=
  match matches r s with
  | t :: _ => Some (length s - length t)
  | [] => None
  end.

(** [re.sub(r, '', s)] for a pattern that cannot match the empty string:
    scan left to right; where [r] matches, drop the match and go on after
    it, otherwise keep the character.  [skip] counts the characters of
    the current match still to drop. *)
Fixpoint sub_scan (r : regex) (skip : nat) (s : str) : str :=
  match s with
  | [] => []
  | c :: t =>
      match skip with
      | S k => sub_scan r k t
      | O =>
          match match_len r s with
          | Some (S k) => sub_scan r k t
          | _ => c :: sub_scan r 0 t
          end
      end
  end.

Definition re_sub (r : regex) (s : str) : str := sub_scan r 0 s.

(** [re.sub('^' + r, '', s)]: without [re.MULTILINE] the anchor holds at
    the start of the string only. *)
Definition re_sub_bol (r : regex) (s : str) : str :=
  match match_len r s with
  | Some n => skipn n s
  | None => s
  end.

(** [re.findall(r, s)] for a pattern without groups that cannot match the
    empty string: the matched texts, left to right, not overlapping. *)
Fixpoint findall_scan (r : regex) (skip : nat) (s : str) : list str :=
  match s with
  | [] => []
  | _ :: t =>
      match skip with
      | S k => findall_scan r k t
      | O =>
          match match_len r s with
          | Some (S k) => firstn (S k) s :: findall_scan r k t
          | _ => findall_scan r 0 t
          end
      end
  end.

Definition re_findall (r : regex) (s : str) : list str :=
  findall_scan r 0 s.

(** The first way [pre (grp) post] matches at the start of [s], as the
    text of the group. *)
Fixpoint first_some {A B} (f : A -> option B) (l : list A) : option B :=
  match l with
  | [] => None
  | x :: t => match f x with Some y => Some y | None => first_some f t end
  end.

Definition match_group (pre grp post : regex) (s : str) : option str :=
  first_some
    (fun s1 =>
       first_some
         (fun s2 =>
            match matches post s2 with
            | _ :: _ => Some (firstn (length s1 - length s2) s1)
            | [] => None
            end)
         (matches grp s1))
    (matches pre s).

(** [re.search(pre (grp) post, s).group(1)], or [None] without a match. *)
Fixpoint search_group (pre grp post : regex) (s : str) : option str :=
  match match_group pre grp post s with
  | Some g => Some g
  | None =>
      match s with
      | [] => None
      | _ :: t => search_group pre grp post t
      end
  end.

(** ** Python [dict] and the values [json.loads] builds

    A dict keeps its keys in insertion order; assigning to a key that is
    present replaces the value in place.  A number is kept as the literal
    that was matched ([int] or [float] of it is a function of the
    literal). *)

Fixpoint str_eqb (a b : str) : bool :=
  match a, b with
  | [], [] => true
  | x :: a', y :: b' => Ascii.eqb x y && str_eqb a' b'
  | _, _ => false
  end.

#[local] Unset Elimination Schemes.

Inductive json : Type :=
| JNull
| JBool (b : bool)
| JNumber (literal : str)
| JConst (name : str)
| JString (s : str)
| JArray (items : list json)
| JObject (members : list (str * json)).

#[local] Set Elimination Schemes.

Definition pydict := list (str * json).

Fixpoint dict_get (k : str) (d : pydict) : option json :=
  match d with
  | [] => None
  | (k', v) :: t => if str_eqb k k' then Some v else dict_get k t
  end.

(** [d[k] = v] *)
Fixpoint dict_set (k : str) (v : json) (d : pydict) : pydict :=
  match d with
  | [] => [(k, v)]
  | (k', v') :: t =>
      if str_eqb k k' then (k', v) :: t else (k', v') :: dict_set k v t
  end.

(** [d.get(k, default)] *)
Definition get_default (k : str) (default : json) (d : pydict) : json :=
  match dict_get k d with
  | Some v => v
  | None => default
  end.

Definition keys (d : pydict) : list str := map fst d.

(** ** [json.loads]

    The decoder of the standard library: whitespace is space, tab, line
    feed and carriage return; strings are strict (no raw control
    character); [NaN], [Infinity] and [-Infinity] are accepted.  [None]
    stands for [JSONDecodeError].  A [\u] escape above U+00FF has no
    character in this alphabet and is rejected here. *)

Definition json_ws (c : ascii) : bool :=
  let n := code c in (n =? 32) || (n =? 9) || (n =? 10) || (n =? 13).

Fixpoint skip_ws (s : str) : str :=
  match s with
  | c :: t => if json_ws c then skip_ws t else s
  | [] => []
  end.

Definition is_digit (c : ascii) : bool :=
  let n := code c in (48 <=? n) && (n <=? 57).

Definition hex_val (c : ascii) : option nat :=
  let n := code c in
  if (48 <=? n) && (n <=? 57) then Some (n - 48)
  else if (97 <=? n) && (n <=? 102) then Some (n - 87)
  else if (65 <=? n) && (n <=? 70) then Some (n - 55)
  else None.

Definition hex4 (a b c d : ascii) : option nat :=
  match hex_val a, hex_val b, hex_val c, hex_val d with
  | Some x, Some y, Some z, Some w => Some (((x * 16 + y) * 16 + z) * 16 + w)
  | _, _, _, _ => None
  end.

(** The character a one-letter escape stands for. *)
Definition unescape (c : ascii) : option ascii :=
  let n := code c in
  if (n =? 34) || (n =? 92) || (n =? 47) then Some c
  else if n =? 98 then Some "008"%char
  else if n =? 102 then Some "012"%char
  else if n =? 110 then Some "010"%char
  else if n =? 114 then Some "013"%char
  else if n =? 116 then Some "009"%char
  else None.

(** [scanstring s]: [s] starts just after the opening quote; the result
    is the decoded string and what follows the closing quote. *)
Fixpoint scanstring (s : str) : option (str * str) :=
  match s with
  | [] => None
  | c :: t =>
      if Ascii.eqb c dq then Some ([], t)
      else if Ascii.eqb c bsl then
        match t with
        | [] => None
        | e :: t1 =>
            if Ascii.eqb e "u" then
              match t1 with
              | h1 :: h2 :: h3 :: h4 :: t2 =>
                  match hex4 h1 h2 h3 h4 with
                  | Some n =>
                      if n <? 256 then
                        match scanstring t2 with
                        | Some (x, r) => Some (ascii_of_nat n :: x, r)
                        | None => None
                        end
                      else None
                  | None => None
                  end
              | _ => None
              end
            else
              match unescape e with
              | Some x =>
                  match scanstring t1 with
                  | Some (y, r) => Some (x :: y, r)
                  | None => None
                  end
              | None => None
              end
        end
      else if code c <? 32 then None
      else
        match scanstring t with
        | Some (x, r) => Some (c :: x, r)
        | None => None
        end
  end.

Fixpoint span_digits (s : str) : str * str :=
  match s with
  | c :: t =>
      if is_digit c then let '(d, r) := span_digits t in (c :: d, r)
      else ([], s)
  | [] => ([], [])
  end.

(** The number at the start of [s]: an optional minus sign, then [0] or
    a run of digits not starting with [0], then optionally a dot with at
    least one digit, then optionally [e] or [E], an optional sign and at
    least one digit. *)
Definition scan_int (s : str) : option (str * str) :=
  match s with
  | c :: t =>
      if Ascii.eqb c "0" then Some ([c], t)
      else if is_digit c then
        let '(d, r) := span_digits t in Some (c :: d, r)
      else None
  | [] => None
  end.

Definition scan_frac (s : str) : str * str :=
  match s with
  | c :: t =>
      if Ascii.eqb c "." then
        match span_digits t with
        | ([], _) => ([], s)
        | (d, r) => (c :: d, r)
        end
      else ([], s)
  | [] => ([], s)
  end.

Definition scan_exp (s : str) : str * str :=
  match s with
  | c :: t =>
      if Ascii.eqb c "e" || Ascii.eqb c "E" then
        let '(sign, t1) :=
          match t with
          | g :: t' =>
              if Ascii.eqb g "+" || Ascii.eqb g "-" then ([g], t')
              else ([], t)
          | [] => ([], t)
          end in
        match span_digits t1 with
        | ([], _) => ([], s)
        | (d, r) => (c :: sign ++ d, r)
        end
      else ([], s)
  | [] => ([], s)
  end.

Definition scan_number (s : str) : option (str * str) :=
  let '(sign, s1) :=
    match s with
    | c :: t => if Ascii.eqb c "-" then ([c], t) else ([], s)
    | [] => ([], s)
    end in
  match scan_int s1 with
  | Some (i, s2) =>
      let '(f, s3) := scan_frac s2 in
      let '(e, s4) := scan_exp s3 in
      Some (sign ++ i ++ f ++ e, s4)
  | None => None
  end.

(** [strip_prefix p s]: what follows [p] when [s] starts with [p]. *)
Fixpoint strip_prefix (p s : str) : option str :=
  match p, s with
  | [], _ => Some s
  | a :: p', b :: s' => if Ascii.eqb a b then strip_prefix p' s' else None
  | _ :: _, [] => None
  end.

Definition scan_constant (s : str) : option (json * str) :=
  match strip_prefix (L "null") s with
  | Some r => Some (JNull, r)
  | None =>
  match strip_prefix (L "true") s with
  | Some r => Some (JBool true, r)
  | None =>
  match strip_prefix (L "false") s with
  | Some r => Some (JBool false, r)
  | None =>
  match strip_prefix (L "NaN") s with
  | Some r => Some (JConst (L "NaN"), r)
  | None =>
  match strip_prefix (L "Infinity") s with
  | Some r => Some (JConst (L "Infinity"), r)
  | None =>
  match strip_prefix (L "-Infinity") s with
  | Some r => Some (JConst (L "-Infinity"), r)
  | None => None
  end end end end end end.

(** [scan_once]: one value at the start of [s].  An array or object
    takes two units of fuel for its first character and every nested
    call is on a shorter text, so fuel above twice the length of [s] is
    never used up. *)
Fixpoint scan_once (fuel : nat) (s : str) {struct fuel}
  : option (json * str) :=
  match fuel with
  | O => None
  | S n =>
      match s with
      | [] => None
      | c :: t =>
          if Ascii.eqb c dq then
            match scanstring t with
            | Some (x, r) => Some (JString x, r)
            | None => None
            end
          else if Ascii.eqb c "{" then
            match skip_ws t with
            | c1 :: t1 =>
                if Ascii.eqb c1 "}" then Some (JObject [], t1)
                else
                  match parse_members n [] (c1 :: t1) with
                  | Some (d, r) => Some (JObject d, r)
                  | None => None
                  end
            | [] => None
            end
          else if Ascii.eqb c "[" then
            match skip_ws t with
            | c1 :: t1 =>
                if Ascii.eqb c1 "]" then Some (JArray [], t1)
                else
                  match parse_items n (c1 :: t1) with
                  | Some (l, r) => Some (JArray l, r)
                  | None => None
                  end
            | [] => None
            end
          else
            match scan_constant s with
            | Some res => Some res
            | None =>
                match scan_number s with
                | Some (x, r) => Some (JNumber x, r)
                | None => None
                end
            end
      end
  end

(** The members of an object from the opening quote of a key on; [acc]
    is the dict built so far. *)
with parse_members (fuel : nat) (acc : pydict) (s : str) {struct fuel}
  : option (pydict * str) :=
  match fuel with
  | O => None
  | S n =>
      match s with
      | c :: t =>
          if Ascii.eqb c dq then
            match scanstring t with
            | Some (k, r1) =>
                match skip_ws r1 with
                | c2 :: r2 =>
                    if Ascii.eqb c2 ":" then
                      match scan_once n (skip_ws r2) with
                      | Some (v, r3) =>
                          let acc' := dict_set k v acc in
                          match skip_ws r3 with
                          | c4 :: r4 =>
                              if Ascii.eqb c4 "}" then Some (acc', r4)
                              else if Ascii.eqb c4 "," then
                                parse_members n acc' (skip_ws r4)
                              else None
                          | [] => None
                          end
                      | None => None
                      end
                    else None
                | [] => None
                end
            | None => None
            end
          else None
      | [] => None
      end
  end

(** The items of an array from the first character of an item on. *)
with parse_items (fuel : nat) (s : str) {struct fuel}
  : option (list json * str) :=
  match fuel with
  | O => None
  | S n =>
      match scan_once n s with
      | Some (v, r1) =>
          match skip_ws r1 with
          | c2 :: r2 =>
              if Ascii.eqb c2 "]" then Some ([v], r2)
              else if Ascii.eqb c2 "," then
                match parse_items n (skip_ws r2) with
                | Some (l, r) => Some (v :: l, r)
                | None => None
                end
              else None
          | [] => None
          end
      | None => None
      end
  end.

Definition json_loads (s : str) : option json :=
  let s0 := skip_ws s in
  match scan_once (S (2 * length s0)) s0 with
  | Some (v, r) =>
      match skip_ws r with
      | [] => Some v
      | _ :: _ => None
      end
  | None => None
  end.

(** ** Collaborators and the record of calls made to them *)

Definition image := nat.

(** How [pytesseract.image_to_string] is called: with the image alone,
    with [lang=...], or with [config=...]. *)
Inductive ocr_args : Type :=
| NoArgs
| Lang (l : str)
| Config (c : str).

Definition row := list json.

Inductive call : Type :=
| CallPdfRead (path : str)
| CallRasterize (path : str)
| CallImageOpen (path : str)
| CallOcr (img : image) (args : ocr_args)
| CallGenerate (prompt : str)
| CallMakeDirs (path : str)
| CallDownload (url : option str) (auth : option (str * str))
| CallSave (path content : str)
| CallAppendRow (r : row).

(** One field per collaborator.  [None] (or [inl] with the message, or
    [false]) says that the call raised. *)
Record World : Type := {
  (** [pdfplumber.open(path)] and [page.extract_text()] of every page,
      with the [os.path] calls before them *)
  pdf_read : str -> option (list (option str));
  (** [pdf2image.convert_from_path(path)], import included *)
  convert_from_path : str -> option (list image);
  (** [Image.open(path)], with the [os.path] calls before it *)
  image_open : str -> option image;
  image_to_string : image -> ocr_args -> option str;
  (** [GenerativeModel(...).generate_content(prompt).text] *)
  generate_content : str -> str + str;
  (** [requests.get(url, auth=auth)]: status code and content *)
  http_get : option str -> option (str * str) -> option (Z * str);
  (** [os.makedirs(path, exist_ok=True)] *)
  makedirs : str -> bool;
  (** writing the downloaded bytes to the path *)
  save_file : str -> str -> bool;
  (** [sheet.append_row(r)], given the rows the sheet holds *)
  append_row : list row -> row -> bool;
  (** [int(time.time())] *)
  clock : Z;
  (** [os.getenv] *)
  TWILIO_ACCOUNT_SID : option str;
  TWILIO_AUTH_TOKEN : option str
}.

Record Store : Type := {
  sheet : list row;
  calls : list call
}.

Definition M (A : Type) : Type := Store -> A * Store.

Definition ret {A} (x : A) : M A := fun st => (x, st).

Definition bind {A B} (m : M A) (f : A -> M B) : M B :=
  fun st => let '(x, st') := m st in f x st'.

Notation "x <- m ;; k" := (bind m (fun x => k))
  (at level 61, m at next level, right associativity).
Notation "m ;; k" := (bind m (fun _ => k))
  (at level 61, right associativity).

Definition record (c : call) : M unit :=
  fun st => (tt, {| sheet := sheet st; calls := calls st ++ [c] |}).

(** ** resume_parser.py *)

Definition pdf_to_images (w : World) (file_path : str) : M (list image) :=
  record (CallRasterize file_path) ;;
  ret match convert_from_path w file_path with
      | Some images => images
      | None => []
      end.

(** The loop over the page images: [None] when an OCR call raised. *)
Fixpoint ocr_pages (w : World) (images : list image) (text : str)
  : M (option str) :=
  match images with
  | [] => ret (Some text)
  | img :: rest =>
      record (CallOcr img NoArgs) ;;
      match image_to_string w img NoArgs with
      | Some img_text => ocr_pages w rest (text ++ img_text)
      | None => ret None
      end
  end.

Definition page_text (p : option str) : str :=
  match p with
  | Some t => t
  | None => []
  end.

Definition extract_text_from_pdf (w : World) (file_path : str) : M str :=
  record (CallPdfRead file_path) ;;
  match pdf_read w file_path with
  | Some pages =>
      let text := List.concat (map page_text pages) in
      if length (strip text) <? 20 then
        images <- pdf_to_images w file_path ;;
        match images with
        | _ :: _ =>
            r <- ocr_pages w images text ;;
            match r with
            | Some text' => ret (strip text')
            | None => ret (strip [])
            end
        | [] => ret (strip text)
        end
      else ret (strip text)
  | None => ret (strip [])
  end.

Definition custom_config : str := L "--oem 3 --psm 6".

Definition extract_text_from_image (w : World) (file_path : str) : M str :=
  record (CallImageOpen file_path) ;;
  match image_open w file_path with
  | Some img =>
      record (CallOcr img (Lang (L "eng"))) ;;
      match image_to_string w img (Lang (L "eng")) with
      | Some text =>
          if length (strip text) <? 10 then
            record (CallOcr img (Config custom_config)) ;;
            match image_to_string w img (Config custom_config) with
            | Some text' => ret (strip text')
            | None => ret (strip [])
            end
          else ret (strip text)
      | None => ret (strip [])
      end
  | None => ret (strip [])
  end.

(** [json.loads(s)] where [s] starts with a brace: a dict, or
    [JSONDecodeError]. *)
Definition loads_dict (s : str) : option pydict :=
  match json_loads s with
  | Some (JObject d) => Some d
  | _ => None
  end.

Definition looks_like_object (s : str) : bool :=
  startswith (L "{") s && endswith (L "}") s.

Definition quote : regex :=
  Chr (fun c => Ascii.eqb c dq || Ascii.eqb c "'").

Definition not_brace : regex :=
  Chr (fun c => negb (Ascii.eqb c "{" || Ascii.eqb c "}")).

(** The three fence patterns: [```json\s*], [```\s*$] and, anchored at
    the start by [re_sub_bol], [```\s*]. *)
Definition fence_json : regex := lit (L "```json") ws.
Definition fence_end : regex := lit (L "```") (Seq ws Eol).
Definition fence_start : regex := lit (L "```") ws.

(** [json_pattern]: a brace, non-braces, any number of inner brace pairs
    each followed by non-braces, a brace. *)
Definition json_pattern : regex :=
  Seq (Chr (Ascii.eqb "{"))
      (Seq (Star not_brace)
           (Seq (Star (Seq (Chr (Ascii.eqb "{"))
                           (Seq (Star not_brace)
                                (Seq (Chr (Ascii.eqb "}"))
                                     (Star not_brace)))))
                (Chr (Ascii.eqb "}")))).

(** The pattern of one field, split at its group: an optional quote, the
    field name, an optional quote, [\s*:\s*], an optional quote; the
    group, one or more characters other than double quote, comma and
    line feed; an optional quote.  The whole is case-insensitive. *)
Definition field_pre (field : str) : regex :=
  Seq (Opt quote)
      (lit_i field
             (Seq (Opt quote)
                  (Seq ws (Seq (Chr (Ascii.eqb ":")) (Seq ws (Opt quote)))))).

Definition field_grp : regex :=
  Plus (Chr (fun c =>
               negb (Ascii.eqb c dq || Ascii.eqb c "," || Ascii.eqb c nl))).

Definition field_post : regex := Opt quote.

Definition search_field (field cleaned_text : str) : option str :=
  search_group (field_pre field) field_grp field_post cleaned_text.

Definition FIELDS : list str :=
  [L "Full Name"; L "Email"; L "Phone Number"; L "CGPA";
   L "BTech College Name"].

(** The text after the three substitutions and the second [strip]. *)
Definition remove_fences (cleaned_text : str) : str :=
  strip (re_sub_bol fence_start (re_sub fence_end
                                   (re_sub fence_json cleaned_text))).

(** The manual extraction loop. *)
Definition manual_fields (cleaned_text : str) : pydict :=
  fold_left
    (fun result field =>
       match search_field field cleaned_text with
       | Some g => dict_set field (JString (strip g)) result
       | None => result
       end)
    FIELDS [].

Definition extract_json_from_response (response_text : str)
  : option pydict :=
  let cleaned_text := strip response_text in
  match (if looks_like_object cleaned_text
         then loads_dict cleaned_text else None) with
  | Some d => Some d
  | None =>
      let cleaned_text := remove_fences cleaned_text in
      match (if looks_like_object cleaned_text
             then loads_dict cleaned_text else None) with
      | Some d => Some d
      | None =>
          match first_some loads_dict
                           (re_findall json_pattern cleaned_text) with
          | Some d => Some d
          | None =>
              match manual_fields cleaned_text with
              | [] => None
              | result => Some result
              end
          end
      end
  end.

Definition prompt_head : str := Q "
    You are a resume parser. Extract ONLY the following information from the resume text and return ONLY a valid JSON object with no additional text or comments. 

    Required JSON structure:
    {
        ~Full Name~: ~student's full name or N/A~,
        ~Email~: ~email address or N/A~,
        ~Phone Number~: ~mobile/phone number or N/A~,
        ~CGPA~: ~CGPA score (e.g., 9.47) or N/A~,
        ~BTech College Name~: ~college/institute name where BTech is being pursued or N/A~
    }

    Critical instructions:
    - Extract ONLY these 5 fields. Do not extract skills, experience, or any other information.
    - Read the ENTIRE resume text from FIRST character to LAST character - scan every line thoroughly
    - Search EVERYWHERE in the text - emails and phone numbers could be:
      * In the header at the top
      * In a ~Basic Information~ or ~Contact~ section  
      * At the very bottom of the resume in footer
      * In the middle paragraphs
      * Near the name or in any section
      * In any format (with or without labels like ~Mobile:~, ~Email:~, ~Phone:~, etc.)
    - Look for ANY email pattern (@ symbol) anywhere in the document
    - Look for ANY phone number pattern (digits, with or without spaces, hyphens, parentheses) anywhere in the document
    - For CGPA: Search in ~Academic Details~, ~Education~, ~B.Tech~, or anywhere CGPA is mentioned
    - For College Name: Search in ~Academic Details~, ~Education~, B.Tech section, or institution name anywhere
    - For Name: Usually at the very top, but search throughout if not found
    - If information is in tabular/structured format, extract it from there too
    - Be thorough and check ALL parts of the text - nothing should be missed
    
    Resume Text:
    ".

Definition prompt_tail : str := Q "

    Return ONLY the JSON object with no markdown, no explanations, no code blocks. Just pure JSON.
    ".

Definition build_prompt (text : str) : str :=
  prompt_head ++ text ++ prompt_tail.

Definition NA : json := JString (L "N/A").

(** The record returned when nothing could be parsed. *)
Definition fallback_record (response_text : str) : pydict :=
  [(L "Full Name", NA); (L "Email", NA); (L "Phone Number", NA);
   (L "CGPA", NA); (L "BTech College Name", NA);
   (L "raw_response", JString (firstn 500 response_text))].

(** The truth value of a dict: it has a key. *)
Definition truthy (d : pydict) : bool :=
  match d with
  | _ :: _ => true
  | [] => false
  end.

Definition extract_resume_info (w : World) (text : str) : M pydict :=
  match text with
  | [] => ret [(L "error", JString (L "No text found in resume"))]
  | _ :: _ =>
      record (CallGenerate (build_prompt text)) ;;
      match generate_content w (build_prompt text) with
      | inr response_text =>
          match extract_json_from_response response_text with
          | Some parsed_data =>
              if truthy parsed_data then ret parsed_data
              else ret (fallback_record response_text)
          | None => ret (fallback_record response_text)
          end
      | inl e => ret [(L "error", JString e)]
      end
  end.

(** ** app.py *)

Inductive http_method : Type := GET | POST.

(** The fields of the webhook call the handler reads.  [NumMedia] is the
    parsed integer (0 when the field is absent). *)
Record Request : Type := {
  method : http_method;
  Body : option str;
  NumMedia : Z;
  MediaUrl0 : option str;
  MediaContentType0 : option str;
  AccountSid : option str
}.

(** The reply messages, by template: the texts start with a symbol
    outside this alphabet, and the success text ends with [str(data)].
    - [MsgDownloadError n]: Error downloading resume: HTTP n. Check
      Twilio credentials.
    - [MsgNoText]: Could not extract text from the resume. Please ensure
      the file is not corrupted.
    - [MsgSuccess data]: Resume processed successfully! Extracted info:
      data
    - [MsgResumeHint]: Please send a resume text or PDF/image. The
      message should contain: name, email, phone, CGPA, and college name.
    - [MsgGeneric]: Please send a resume as text, PDF, or image to
      extract details. *)
Inductive message : Type :=
| MsgDownloadError (status : Z)
| MsgNoText
| MsgSuccess (data : pydict)
| MsgResumeHint
| MsgGeneric.

(** What the handler returns: the verification text of a GET, the
    response holding one message, or an exception that leaves it. *)
Inductive outcome : Type :=
| Verified
| Reply (m : message)
| Uncaught.

Definition or_default (o : option str) (d : str) : str :=
  match o with
  | Some x => x
  | None => d
  end.

(** [a or b] on values that are a string or [None]. *)
Definition py_or (a b : option str) : option str :=
  match a with
  | Some (_ :: _) => a
  | _ => b
  end.

(** The row handed to [sheet.append_row]. *)
Definition row_of (data : pydict) : row :=
  [get_default (L "Full Name") NA data;
   get_default (L "Email") NA data;
   get_default (L "Phone Number") NA data;
   get_default (L "CGPA") NA data;
   get_default (L "BTech College Name") NA data].

(** The [try] around [sheet.append_row]: a failure leaves the sheet as it
    was and is only printed. *)
Definition persist (w : World) (data : pydict) : M unit :=
  record (CallAppendRow (row_of data)) ;;
  fun st =>
    if append_row w (sheet st) (row_of data)
    then (tt, {| sheet := sheet st ++ [row_of data]; calls := calls st |})
    else (tt, st).

Definition file_extension_of (content_type : str) : str :=
  if contains (L "pdf") (lower content_type) then L "pdf"
  else if contains (L "png") (lower content_type) then L "png"
  else if contains (L "jpeg") (lower content_type)
          || contains (L "jpg") (lower content_type) then L "jpg"
  else split_last "/" content_type.

Definition KEYWORDS : list str :=
  [L "email"; L "@"; L "mobile"; L "phone"; L "cgpa"; L "college";
   L "b.tech"; L "education"].

(** The extraction step of the media path.  Neither extractor raises, so
    the two [except] branches around them have no counterpart here. *)
Definition extract_media_text (w : World) (file_extension file_name
                                             file_path : str) : M str :=
  if str_eqb (lower file_extension) (L "pdf")
     || endswith (L ".pdf") (lower file_name)
  then
    text <- extract_text_from_pdf w file_path ;;
    if length (strip text) <? 50 then
      ocr_text <- extract_text_from_image w file_path ;;
      if length (strip text) <? length (strip ocr_text)
      then ret ocr_text else ret text
    else ret text
  else extract_text_from_image w file_path.

Definition media_path (w : World) (req : Request) : M outcome :=
  let content_type := or_default (MediaContentType0 req) [] in
  let file_extension := file_extension_of content_type in
  let file_name :=
    L "resume_" ++ str_of_Z (clock w) ++ L "." ++ file_extension in
  let file_path := L "downloads/" ++ file_name in
  let account_sid := py_or (TWILIO_ACCOUNT_SID w) (AccountSid req) in
  let auth :=
    match account_sid, TWILIO_AUTH_TOKEN w with
    | Some (a :: sid), Some (b :: token) => Some (a :: sid, b :: token)
    | _, _ => None
    end in
  record (CallMakeDirs (L "downloads")) ;;
  if makedirs w (L "downloads") then
    record (CallDownload (MediaUrl0 req) auth) ;;
    match http_get w (MediaUrl0 req) auth with
    | None => ret Uncaught
    | Some (status_code, content) =>
        if negb (status_code =? 200)%Z
        then ret (Reply (MsgDownloadError status_code))
        else
          record (CallSave file_path content) ;;
          if save_file w file_path content then
            text <- extract_media_text w file_extension file_name file_path ;;
            if (length text =? 0) || (length (strip text) =? 0)
            then ret (Reply MsgNoText)
            else
              data <- extract_resume_info w text ;;
              persist w data ;;
              ret (Reply (MsgSuccess data))
          else ret Uncaught
    end
  else ret Uncaught.

Definition text_path (w : World) (req : Request) : M outcome :=
  let body := or_default (Body req) [] in
  if negb (length body =? 0) && (10 <? length (strip body)) then
    if existsb (fun keyword => contains keyword (lower body)) KEYWORDS
    then
      data <- extract_resume_info w body ;;
      persist w data ;;
      ret (Reply (MsgSuccess data))
    else ret (Reply MsgResumeHint)
  else ret (Reply MsgGeneric).

Definition whatsapp_webhook (w : World) (req : Request) : M outcome :=
  match method req with
  | GET => ret Verified
  | POST =>
      if (0 <? NumMedia req)%Z then media_path w req else text_path w req
  end.

(** Running a computation on a store. *)
Definition result {A} (m : M A) (st : Store) : A := fst (m st).
Definition final {A} (m : M A) (st : Store) : Store := snd (m st).
Definition calls_made {A} (m : M A) (st : Store) : list call :=
  skipn (length (calls st)) (calls (final m st)).

Definition empty_store : Store := {| sheet := []; calls := [] |}.

(** ** Properties stated below *)

(** No white space at either end. *)
Definition trimmed (s : str) : Prop :=
  (forall c t, s = c :: t -> is_space c = false) /\
  (forall c t, s = t ++ [c] -> is_space c = false).

(** Every canonical field has a value. *)
Definition fully_populated (d : pydict) : Prop :=
  forall k, In k FIELDS -> dict_get k d <> None.

Definition no_braces (s : str) : Prop :=
  ~ In "{"%char s /\ ~ In "}"%char s.

(** A JSON body inside a [json]-tagged code fence. *)
Definition fence (J : str) : str :=
  L "```json" ++ [nl] ++ J ++ [nl] ++ L "```".

Definition has_keyword (body : str) : bool :=
  existsb (fun keyword => contains keyword (lower body)) KEYWORDS.

(** [m] returns [v] and calls [tr], whatever the store, and leaves the
    sheet as it is. *)
Definition pure_trace {A} (m : M A) (v : A) (tr : list call) : Prop :=
  forall st, m st = (v, {| sheet := sheet st; calls := calls st ++ tr |}).

(** What [extract_resume_info] returns, by the outcome of the model call
    and of the parsing chain. *)
Definition record_for (reply : str + str) : pydict :=
  match reply with
  | inr response_text =>
      match extract_json_from_response response_text with
      | Some (p :: d) => p :: d
      | _ => fallback_record response_text
      end
  | inl e => [(L "error", JString e)]
  end.

(** ** Worlds and inputs used as instances *)

Definition offline : World := {|
  pdf_read := fun _ => None;
  convert_from_path := fun _ => None;
  image_open := fun _ => None;
  image_to_string := fun _ _ => None;
  generate_content := fun _ => inl (L "model unavailable");
  http_get := fun _ _ => None;
  makedirs := fun _ => true;
  save_file := fun _ _ => true;
  append_row := fun _ _ => true;
  clock := 1700000000;
  TWILIO_ACCOUNT_SID := None;
  TWILIO_AUTH_TOKEN := None
|}.

Definition with_generate (g : str -> str + str) (w : World) : World := {|
  pdf_read := pdf_read w;
  convert_from_path := convert_from_path w;
  image_open := image_open w;
  image_to_string := image_to_string w;
  generate_content := g;
  http_get := http_get w;
  makedirs := makedirs w;
  save_file := save_file w;
  append_row := append_row w;
  clock := clock w;
  TWILIO_ACCOUNT_SID := TWILIO_ACCOUNT_SID w;
  TWILIO_AUTH_TOKEN := TWILIO_AUTH_TOKEN w
|}.

Definition with_append_row (f : list row -> row -> bool) (w : World)
  : World := {|
  pdf_read := pdf_read w;
  convert_from_path := convert_from_path w;
  image_open := image_open w;
  image_to_string := image_to_string w;
  generate_content := generate_content w;
  http_get := http_get w;
  makedirs := makedirs w;
  save_file := save_file w;
  append_row := f;
  clock := clock w;
  TWILIO_ACCOUNT_SID := TWILIO_ACCOUNT_SID w;
  TWILIO_AUTH_TOKEN := TWILIO_AUTH_TOKEN w
|}.

Definition with_files (pdf : str -> option (list (option str)))
           (pages : str -> option (list image))
           (open : str -> option image)
           (ocr : image -> ocr_args -> option str) (w : World) : World := {|
  pdf_read := pdf;
  convert_from_path := pages;
  image_open := open;
  image_to_string := ocr;
  generate_content := generate_content w;
  http_get := http_get w;
  makedirs := makedirs w;
  save_file := save_file w;
  append_row := append_row w;
  clock := clock w;
  TWILIO_ACCOUNT_SID := TWILIO_ACCOUNT_SID w;
  TWILIO_AUTH_TOKEN := TWILIO_AUTH_TOKEN w
|}.

Definition with_download (get : option str -> option (str * str)
                                -> option (Z * str)) (w : World) : World := {|
  pdf_read := pdf_read w;
  convert_from_path := convert_from_path w;
  image_open := image_open w;
  image_to_string := image_to_string w;
  generate_content := generate_content w;
  http_get := get;
  makedirs := makedirs w;
  save_file := save_file w;
  append_row := append_row w;
  clock := clock w;
  TWILIO_ACCOUNT_SID := TWILIO_ACCOUNT_SID w;
  TWILIO_AUTH_TOKEN := TWILIO_AUTH_TOKEN w
|}.

(** A model that answers every prompt with [response]. *)
Definition answering (response : str) : World :=
  with_generate (fun _ => inr response) offline.

Definition jane_only : str := Q "{~Full Name~: ~Jane Doe~}".

Definition jane_full : str :=
  Q "{~Full Name~:~Jane Doe~,~Email~:~jane@x.com~,~Phone Number~:~9999999999~,~CGPA~:~9.1~,~BTech College Name~:~XYZ Institute~}".

Definition jane_extra : str :=
  Q "{~Full Name~: ~Jane Doe~, ~Skills~: [~Rocq~, ~Python~]}".

Definition resume_text : str :=
  L "Jane Doe, email jane@x.com, phone 9999999999".

Definition text_request (body : str) : Request := {|
  method := POST;
  Body := Some body;
  NumMedia := 0;
  MediaUrl0 := None;
  MediaContentType0 := None;
  AccountSid := None
|}.

Definition media_request (url content_type : str) : Request := {|
  method := POST;
  Body := None;
  NumMedia := 1;
  MediaUrl0 := Some url;
  MediaContentType0 := Some content_type;
  AccountSid := None
|}.

(** A PDF whose text layer holds five characters and whose single page
    image reads as forty. *)
Definition page_ocr_40 : str := L "Jane Doe jane@x.com 9999999999 CGPA 9.1!".

Definition scanned_pdf : World :=
  with_files (fun _ => Some [Some (L "abcde")])
             (fun _ => Some [0])
             (fun _ => None)
             (fun _ _ => Some page_ocr_40)
             offline.

(** An image whose first reading has five characters and whose second
    reading is empty. *)
Definition faint_image : World :=
  with_files (fun _ => None) (fun _ => None)
             (fun _ => Some 0)
             (fun _ args =>
                match args with
                | Lang _ => Some (L "abcde")
                | _ => Some []
                end)
             offline.

(** A download that succeeds with a PDF whose text layer holds the text
    of a resume, and a model that answers with [response]. *)
Definition resume_page : str :=
  L "Jane Doe  jane@x.com  9999999999  B.Tech, XYZ Institute  CGPA 9.1".

Definition pdf_upload (response : str) : World :=
  with_download (fun _ _ => Some (200%Z, L "%PDF-1.4"))
    (with_files (fun _ => Some [Some resume_page])
                (fun _ => None) (fun _ => None) (fun _ _ => None)
                (answering response)).

(** A JSON body with a fence marker inside a string. *)
Definition marker_body : str := Q "{~a~:~```json~}".

(** ** The header row

    [ensure_headers] runs once when [app.py] is loaded.  What it reads
    from the sheet is given by a [SheetView]: [None] says that the read
    raised. *)





(** ** Kinds of calls *)

(** The calls that read the saved file. *)
Definition read_call (c : call) : bool :=
  match c with
  | CallPdfRead _ | CallRasterize _ | CallImageOpen _ | CallOcr _ _ => true
  | _ => false
  end.

(** The calls the PDF extractor makes. *)
Definition pdf_call (c : call) : bool :=
  match c with
  | CallPdfRead _ | CallRasterize _ | CallOcr _ NoArgs => true
  | _ => false
  end.

(** The calls that fetch the attachment and save it. *)
Definition fetch_call (c : call) : bool :=
  match c with
  | CallMakeDirs _ | CallDownload _ _ | CallSave _ _ => true
  | _ => false
  end.

(** A JSON body inside a code fence without a tag. *)
Definition plain_fence (J : str) : str :=
  L "```" ++ [nl] ++ J ++ [nl] ++ L "```".

(** The characters the group of a field pattern accepts. *)
Definition value_char (c : ascii) : bool :=
  negb (Ascii.eqb c dq || Ascii.eqb c "," || Ascii.eqb c nl).

(** ** Proof steps shared by the sections below *)

Ltac run_step := cbv beta iota zeta; cbn [fst snd sheet calls].

(** ** Facts about the string functions *)

Section StringFacts.

Lemma forallb_rev (f : ascii -> bool) (s : str) :
  forallb f (rev s) = forallb f s.
Proof.
  induction s as [|c t IH]; simpl; [reflexivity|].
  rewrite forallb_app, IH. simpl. rewrite andb_true_r. apply andb_comm.
Qed.

Lemma lstrip_split (s : str) :
  exists a, s = a ++ lstrip s /\ forallb is_space a = true.
Proof.
  induction s as [|c t [a [Ha Hs]]]; simpl.
  - exists []. auto.
  - destruct (is_space c) eqn:Hc.
    + exists (c :: a). simpl. rewrite Hc, Hs. split; [congruence | reflexivity].
    + exists []. auto.
Qed.

Lemma lstrip_head (s : str) (c : ascii) (t : str) :
  lstrip s = c :: t -> is_space c = false.
Proof.
  induction s as [|x s IH]; simpl; [discriminate|].
  destruct (is_space x) eqn:Hx; [exact IH|].
  intros H. injection H as <- _. exact Hx.
Qed.

Lemma lstrip_app_ws (a s : str) :
  forallb is_space a = true -> lstrip (a ++ s) = lstrip s.
Proof.
  induction a as [|x a IH]; simpl; [reflexivity|].
  intros H. apply andb_true_iff in H as [Hx Ha]. rewrite Hx. auto.
Qed.

Lemma lstrip_all_ws (a : str) : forallb is_space a = true -> lstrip a = [].
Proof.
  intros H. rewrite <- (app_nil_r a). now rewrite lstrip_app_ws.
Qed.

Lemma rstrip_split (s : str) :
  exists b, s = rstrip s ++ b /\ forallb is_space b = true.
Proof.
  unfold rstrip. destruct (lstrip_split (rev s)) as [a [Ha Hs]].
  exists (rev a). split.
  - rewrite <- rev_app_distr, <- Ha. symmetry. apply rev_involutive.
  - now rewrite forallb_rev.
Qed.

Lemma rstrip_app_ws (s b : str) :
  forallb is_space b = true -> rstrip (s ++ b) = rstrip s.
Proof.
  intros H. unfold rstrip. rewrite rev_app_distr, lstrip_app_ws; auto.
  now rewrite forallb_rev.
Qed.

Lemma rstrip_last (s : str) (d : ascii) :
  is_space d = false -> rstrip (s ++ [d]) = s ++ [d].
Proof.
  intros H. unfold rstrip. rewrite rev_app_distr. simpl. rewrite H.
  change (d :: rev s) with (rev [d] ++ rev s).
  now rewrite <- rev_app_distr, rev_involutive.
Qed.

Lemma strip_split (s : str) :
  exists a b, s = a ++ strip s ++ b
              /\ forallb is_space a = true /\ forallb is_space b = true.
Proof.
  destruct (lstrip_split s) as [a [Ha Hs]].
  destruct (rstrip_split (lstrip s)) as [b [Hb Ht]].
  exists a, b. unfold strip. rewrite <- Hb. auto.
Qed.

Lemma strip_trimmed (s : str) : trimmed (strip s).
Proof.
  split; intros c t H.
  - destruct (rstrip_split (lstrip s)) as [b [Hb _]].
    fold (strip s) in Hb. rewrite H in Hb. simpl in Hb.
    exact (lstrip_head _ _ _ Hb).
  - unfold strip, rstrip in H.
    apply (f_equal (@rev ascii)) in H.
    rewrite rev_involutive, rev_app_distr in H. simpl in H.
    exact (lstrip_head _ _ _ H).
Qed.

Lemma strip_wrap (a core b : str) :
  trimmed core ->
  forallb is_space a = true -> forallb is_space b = true ->
  strip (a ++ core ++ b) = core.
Proof.
  intros [Hhead Hlast] Ha Hb. unfold strip. rewrite lstrip_app_ws by exact Ha.
  destruct core as [|c t].
  - simpl. rewrite lstrip_all_ws by exact Hb. reflexivity.
  - simpl. rewrite (Hhead c t eq_refl).
    change (c :: t ++ b) with ((c :: t) ++ b). rewrite rstrip_app_ws by exact Hb.
    destruct (@exists_last _ (c :: t)) as [m [d Hm]]; [discriminate|].
    rewrite Hm. apply rstrip_last. exact (Hlast d m Hm).
Qed.

Lemma strip_nil : strip [] = [].
Proof. reflexivity. Qed.

Lemma strip_incl (s : str) (c : ascii) : In c (strip s) -> In c s.
Proof.
  intros H. destruct (strip_split s) as [a [b [E _]]].
  rewrite E. apply in_or_app. right. apply in_or_app. now left.
Qed.

Lemma strip_prefix_app (p s r : str) :
  strip_prefix p s = Some r -> s = p ++ r.
Proof.
  revert s. induction p as [|a p IH]; intros s; simpl.
  - congruence.
  - destruct s as [|b s]; [discriminate|].
    destruct (Ascii.eqb a b) eqn:E; [|discriminate].
    apply Ascii.eqb_eq in E. subst b. intros H. f_equal. auto.
Qed.

Lemma strip_prefix_exact (p r : str) : strip_prefix p (p ++ r) = Some r.
Proof.
  induction p as [|a p IH]; simpl; [reflexivity|].
  now rewrite Ascii.eqb_refl.
Qed.

Lemma strip_prefix_startswith (p s : str) :
  startswith p s = false -> strip_prefix p s = None.
Proof.
  revert s. induction p as [|a p IH]; intros s; simpl; [discriminate|].
  destruct s as [|b s]; [reflexivity|].
  destruct (Ascii.eqb a b); simpl; auto.
Qed.

Lemma startswith_app_cut (p u t : str) (x : ascii) :
  startswith p (u ++ x :: t) = true -> startswith p u = true \/ In x p.
Proof.
  revert u. induction p as [|a p IH]; intros u; simpl; [auto|].
  destruct u as [|b u]; simpl.
  - intros H. apply andb_true_iff in H as [H _].
    apply Ascii.eqb_eq in H. auto.
  - intros H. apply andb_true_iff in H as [H1 H2]. rewrite H1. simpl.
    destruct (IH _ H2); auto.
Qed.

Lemma contains_false_inv (p s : str) :
  contains p s = false -> p <> [].
Proof.
  intros H E. subst p. destruct s; discriminate.
Qed.

Lemma contains_suffix (p a s : str) :
  contains p (a ++ s) = false -> contains p s = false.
Proof.
  induction a as [|c a IH]; simpl; [auto|].
  intros H. apply orb_false_iff in H as [_ H]. auto.
Qed.

Lemma contains_app_cut (p s t : str) (x : ascii) :
  contains p s = false -> ~ In x p -> contains p t = false ->
  contains p (s ++ x :: t) = false.
Proof.
  intros Hs Hx Ht. induction s as [|c s IH].
  - simpl. rewrite Ht, orb_false_r.
    destruct (startswith p (x :: t)) eqn:E; [|reflexivity].
    destruct (startswith_app_cut p [] t x E) as [H|H]; [|contradiction].
    destruct p; [|discriminate]. now apply contains_false_inv in Ht.
  - change ((c :: s) ++ x :: t) with (c :: s ++ x :: t).
    simpl in Hs |- *. apply orb_false_iff in Hs as [Hs1 Hs2].
    rewrite (IH Hs2), orb_false_r.
    destruct (startswith p (c :: s ++ x :: t)) eqn:E; [|reflexivity].
    destruct (startswith_app_cut p (c :: s) t x E) as [H|H];
      [congruence | contradiction].
Qed.

Lemma startswith_not_in (c : ascii) (s : str) :
  ~ In c s -> startswith [c] s = false.
Proof.
  destruct s as [|b s]; simpl; [reflexivity|].
  intros H. rewrite andb_true_r. apply Ascii.eqb_neq. intuition congruence.
Qed.

End StringFacts.

(** ** Facts about the matcher *)

Section MatcherFacts.

Lemma matches_lit (p : str) (rest : regex) (s : str) :
  matches (lit p rest) s =
  match strip_prefix p s with
  | Some r => matches rest r
  | None => []
  end.
Proof.
  revert s. induction p as [|a p IH]; intros s; simpl; [reflexivity|].
  destruct s as [|b s]; [reflexivity|].
  destruct (Ascii.eqb a b); simpl; [|reflexivity].
  now rewrite app_nil_r.
Qed.

Lemma star_run_S (step : str -> list str) (n : nat) (s : str) :
  star_run step (S n) s =
  flat_map (star_run step n)
           (filter (fun t => length t <? length s) (step s)) ++ [s].
Proof. reflexivity. Qed.

Lemma matches_chr (p : ascii -> bool) (c : ascii) (t : str) :
  matches (Chr p) (c :: t) = if p c then [t] else [].
Proof. reflexivity. Qed.

Lemma star_space_head (n : nat) (s : str) :
  length s <= n ->
  exists l, star_run (matches (Chr is_space)) n s = lstrip s :: l.
Proof.
  revert s. induction n as [|n IH]; intros s Hn.
  - destruct s; [|simpl in Hn; lia]. exists []. reflexivity.
  - destruct s as [|c t].
    + exists []. reflexivity.
    + rewrite star_run_S, matches_chr. cbn [lstrip].
      destruct (is_space c).
      * assert (Hlt : (length t <? length (c :: t)) = true)
          by (apply Nat.ltb_lt; simpl; lia).
        cbn [filter]. rewrite Hlt. cbn [flat_map]. rewrite app_nil_r.
        destruct (IH t) as [l Hl]; [simpl in Hn; lia|].
        rewrite Hl. eexists. reflexivity.
      * exists []. reflexivity.
Qed.

Lemma matches_ws_head (s : str) : exists l, matches ws s = lstrip s :: l.
Proof. apply star_space_head. apply Nat.le_refl. Qed.

Lemma star_space_suffix (n : nat) (s r : str) :
  In r (star_run (matches (Chr is_space)) n s) ->
  exists a, s = a ++ r /\ forallb is_space a = true.
Proof.
  revert s. induction n as [|n IH]; intros s H.
  - destruct H as [<-|[]]. exists []. auto.
  - rewrite star_run_S in H.
    apply in_app_or in H as [H|[<-|[]]]; [|exists []; auto].
    apply in_flat_map in H as [t [Ht Hr]].
    apply filter_In in Ht as [Ht _].
    destruct s as [|c s]; [contradiction|]. rewrite matches_chr in Ht.
    destruct (is_space c) eqn:Hc; [|contradiction].
    destruct Ht as [<-|[]].
    destruct (IH _ Hr) as [a [Ha Hs]]. exists (c :: a). simpl.
    rewrite Hc, Hs. split; [congruence | reflexivity].
Qed.

Lemma matches_ws_suffix (s r : str) :
  In r (matches ws s) ->
  exists a, s = a ++ r /\ forallb is_space a = true.
Proof. apply star_space_suffix. Qed.

Lemma match_len_lit_none (p : str) (rest : regex) (s : str) :
  startswith p s = false -> match_len (lit p rest) s = None.
Proof.
  intros H. unfold match_len.
  now rewrite matches_lit, strip_prefix_startswith.
Qed.

(** A match of [p\s*] takes [p] and all the white space after it. *)
Lemma match_len_lit_ws (p r : str) :
  match_len (lit p ws) (p ++ r) =
  Some (length (p ++ r) - length (lstrip r)).
Proof.
  unfold match_len. rewrite matches_lit, strip_prefix_exact.
  destruct (matches_ws_head r) as [l ->]. reflexivity.
Qed.

Lemma sub_scan_skip (r : regex) (a b : str) :
  sub_scan r (length a) (a ++ b) = sub_scan r 0 b.
Proof. induction a as [|c a IH]; simpl; auto. Qed.

Lemma sub_scan_match (r : regex) (a b : str) :
  a <> [] -> match_len r (a ++ b) = Some (length a) ->
  sub_scan r 0 (a ++ b) = sub_scan r 0 b.
Proof.
  destruct a as [|c a]; [congruence|]. intros _ H.
  change ((c :: a) ++ b) with (c :: a ++ b) in *.
  cbn [sub_scan]. rewrite H. simpl. apply sub_scan_skip.
Qed.

Lemma sub_scan_no_match (r : regex) (s : str) :
  (forall a b, s = a ++ b -> match_len r b = None) ->
  sub_scan r 0 s = s.
Proof.
  induction s as [|c t IH]; intros H; [reflexivity|].
  cbn [sub_scan]. rewrite (H [] (c :: t) eq_refl). f_equal.
  apply IH. intros a b E. apply (H (c :: a) b). simpl. congruence.
Qed.

Lemma sub_scan_incl (r : regex) (k : nat) (s : str) (c : ascii) :
  In c (sub_scan r k s) -> In c s.
Proof.
  revert k. induction s as [|x t IH]; intros k; simpl; [auto|].
  destruct k as [|k].
  - destruct (match_len r (x :: t)) as [[|n]|]; simpl;
      intros H; try (destruct H; eauto); eauto.
  - eauto.
Qed.

Lemma re_sub_incl (r : regex) (s : str) (c : ascii) :
  In c (re_sub r s) -> In c s.
Proof. apply sub_scan_incl. Qed.

Lemma skipn_incl (n : nat) (s : str) (c : ascii) :
  In c (skipn n s) -> In c s.
Proof.
  revert s. induction n as [|n IH]; intros [|x s]; simpl; auto.
Qed.

Lemma re_sub_bol_incl (r : regex) (s : str) (c : ascii) :
  In c (re_sub_bol r s) -> In c s.
Proof.
  unfold re_sub_bol. destruct (match_len r s); [apply skipn_incl | auto].
Qed.

Lemma findall_scan_none (r : regex) (s : str) :
  (forall a b, s = a ++ b -> match_len r b = None) ->
  findall_scan r 0 s = [].
Proof.
  induction s as [|c t IH]; intros H; [reflexivity|].
  cbn [findall_scan]. rewrite (H [] (c :: t) eq_refl).
  apply IH. intros a b E. apply (H (c :: a) b). simpl. congruence.
Qed.

End MatcherFacts.

(** ** Facts about the fence patterns and the JSON pattern *)

Section PatternFacts.

Lemma startswith_brace (s : str) :
  startswith (L "{") s = true -> exists t, s = "{"%char :: t.
Proof.
  change (L "{") with ["{"%char]. destruct s as [|c t]; [discriminate|].
  cbn [startswith]. rewrite andb_true_r. intros E.
  apply Ascii.eqb_eq in E. subst c. eauto.
Qed.

Lemma contains_startswith (p s : str) :
  contains p s = false -> startswith p s = false.
Proof.
  destruct s; simpl; intros H; apply orb_false_iff in H; tauto.
Qed.

Lemma re_sub_fence_json_absent (s : str) :
  contains (L "```json") s = false -> re_sub fence_json s = s.
Proof.
  intros H. apply sub_scan_no_match. intros a b ->.
  apply match_len_lit_none, contains_startswith.
  exact (contains_suffix _ _ _ H).
Qed.

(** The opening marker goes with the white space after it. *)
Lemma re_sub_fence_json_open (r : str) :
  contains (L "```json") (lstrip r) = false ->
  re_sub fence_json (L "```json" ++ r) = lstrip r.
Proof.
  intros H. destruct (lstrip_split r) as [a [Ha _]].
  unfold re_sub.
  assert (E : L "```json" ++ r = (L "```json" ++ a) ++ lstrip r)
    by (rewrite <- app_assoc; congruence).
  rewrite E at 1. rewrite sub_scan_match.
  - now apply re_sub_fence_json_absent.
  - discriminate.
  - rewrite <- E. unfold fence_json. rewrite match_len_lit_ws.
    f_equal. rewrite E at 1. rewrite (length_app _ (lstrip r)). lia.
Qed.

Lemma flat_map_nil {A B} (f : A -> list B) (l : list A) :
  (forall x, In x l -> f x = []) -> flat_map f l = [].
Proof.
  induction l as [|x l IH]; intros H; simpl; [reflexivity|].
  rewrite (H x) by now left. apply IH. intros y Hy. apply H. now right.
Qed.

Lemma fence_end_no_match (c : ascii) (u : str) :
  match_len fence_end (c :: u ++ nl :: L "```") = None.
Proof.
  unfold match_len, fence_end. rewrite matches_lit.
  destruct (strip_prefix (L "```") (c :: u ++ nl :: L "```"))
    as [rest|] eqn:E; [|reflexivity].
  apply strip_prefix_app in E.
  assert (Hrest : exists m, rest = m ++ ["`"%char]).
  { destruct u as [|c2 [|c3 u]]; try discriminate E.
    exists (u ++ [nl; "`"; "`"]%char).
    injection E as _ _ _ E. rewrite <- E, <- app_assoc. reflexivity. }
  destruct Hrest as [m ->].
  replace (matches (Seq ws Eol) (m ++ ["`"%char])) with (@nil str);
    [reflexivity|].
  symmetry. apply flat_map_nil. intros r Hr.
  apply matches_ws_suffix in Hr as [a [Ha Hs]].
  destruct r as [|x [|y r]]; simpl; try reflexivity.
  - rewrite app_nil_r in Ha. subst a.
    rewrite forallb_app in Hs. simpl in Hs.
    apply andb_true_iff in Hs as [_ Hs]. discriminate Hs.
  - destruct (Ascii.eqb x nl) eqn:Hx; [|reflexivity].
    apply Ascii.eqb_eq in Hx. subst x.
    apply app_inj_tail in Ha as [_ Ha]. discriminate Ha.
Qed.

(** The closing marker is removed with the line break before it kept. *)
Lemma re_sub_fence_end (u : str) :
  re_sub fence_end (u ++ nl :: L "```") = u ++ [nl].
Proof.
  unfold re_sub. induction u as [|c u IH]; [reflexivity|].
  change ((c :: u) ++ nl :: L "```") with (c :: u ++ nl :: L "```").
  cbn [sub_scan]. rewrite fence_end_no_match. simpl. f_equal. exact IH.
Qed.

Lemma re_sub_bol_fence_start (s : str) :
  startswith (L "```") s = false -> re_sub_bol fence_start s = s.
Proof.
  intros H. unfold re_sub_bol, fence_start.
  now rewrite match_len_lit_none.
Qed.

Lemma fence_trimmed (J : str) : trimmed (fence J).
Proof.
  split; intros c t H.
  - injection H as <- _. reflexivity.
  - unfold fence in H.
    replace (L "```json" ++ [nl] ++ J ++ [nl] ++ L "```")
      with ((L "```json" ++ [nl] ++ J ++ [nl] ++ L "``") ++ ["`"%char])
      in H by (repeat rewrite <- app_assoc; reflexivity).
    apply app_inj_tail in H as [_ <-]. reflexivity.
Qed.

Lemma strip_fence (J : str) : strip (fence J) = fence J.
Proof.
  rewrite <- (app_nil_r (fence J)) at 1.
  apply (strip_wrap [] (fence J) []); auto using fence_trimmed.
Qed.

(** Removing the fence around a body that holds no opening marker gives
    the stripped body. *)
Lemma remove_fences_fence (J : str) :
  startswith (L "{") (strip J) = true ->
  contains (L "```json") J = false ->
  remove_fences (fence J) = strip J.
Proof.
  intros Hobj Habs.
  destruct (strip_split J) as [a [b [EJ [Ha Hb]]]].
  destruct (startswith_brace _ Hobj) as [core Hcore].
  assert (Htrim : trimmed ("{"%char :: core))
    by (rewrite <- Hcore; apply strip_trimmed).
  rewrite Hcore in *. set (c0 := "{"%char) in *.
  assert (Hc0 : is_space c0 = false) by reflexivity.
  set (body := (c0 :: core) ++ b).
  assert (Hopen : lstrip ([nl] ++ J ++ [nl] ++ L "```")
                  = body ++ nl :: L "```").
  { rewrite EJ. unfold body.
    replace ([nl] ++ (a ++ (c0 :: core) ++ b) ++ [nl] ++ L "```")
      with ((nl :: a) ++ (c0 :: core) ++ b ++ nl :: L "```")
      by (rewrite <- !app_assoc; simpl; rewrite <- ?app_assoc;
          reflexivity).
    rewrite lstrip_app_ws by (simpl; exact Ha).
    unfold body. rewrite <- !app_assoc. reflexivity. }
  assert (Hbody : contains (L "```json") (body ++ nl :: L "```") = false).
  { apply contains_app_cut.
    - apply (contains_suffix _ a). unfold body. now rewrite <- EJ.
    - simpl. intuition discriminate.
    - reflexivity. }
  unfold remove_fences, fence.
  rewrite re_sub_fence_json_open by (rewrite Hopen; exact Hbody).
  rewrite Hopen, re_sub_fence_end, re_sub_bol_fence_start
    by reflexivity.
  unfold body. rewrite <- app_assoc.
  apply (strip_wrap [] (c0 :: core) (b ++ [nl])); auto.
  rewrite forallb_app, Hb. reflexivity.
Qed.

Lemma json_pattern_no_match (s : str) :
  ~ In "{"%char s -> match_len json_pattern s = None.
Proof.
  intros H. unfold match_len, json_pattern.
  destruct s as [|c t]; [reflexivity|].
  cbn [matches]. destruct (Ascii.eqb "{" c) eqn:E; [|reflexivity].
  apply Ascii.eqb_eq in E. subst c. simpl in H. tauto.
Qed.

Lemma re_findall_no_brace (s : str) :
  ~ In "{"%char s -> re_findall json_pattern s = [].
Proof.
  intros H. apply findall_scan_none. intros a b ->.
  apply json_pattern_no_match. intros Hb. apply H, in_or_app. now right.
Qed.

Lemma remove_fences_incl (s : str) (c : ascii) :
  In c (remove_fences s) -> In c s.
Proof.
  unfold remove_fences. intros H.
  apply strip_incl, re_sub_bol_incl, re_sub_incl, re_sub_incl in H.
  exact H.
Qed.

Lemma looks_like_object_no_brace (s : str) :
  ~ In "{"%char s -> looks_like_object s = false.
Proof.
  intros H. unfold looks_like_object. change (L "{") with ["{"%char].
  now rewrite (startswith_not_in _ _ H).
Qed.

(** Text that starts with a brace decodes to a dict or not at all. *)
Lemma json_loads_object (s : str) (v : json) :
  startswith (L "{") s = true -> json_loads s = Some v ->
  exists d, v = JObject d.
Proof.
  intros E. destruct (startswith_brace _ E) as [t ->]. clear E.
  unfold json_loads. cbn [skip_ws]. change (json_ws "{") with false.
  cbv iota. cbn [scan_once].
  change (Ascii.eqb "{" dq) with false.
  change (Ascii.eqb "{" "{") with true. cbv iota.
  destruct (skip_ws t) as [|c1 t1]; [discriminate|].
  destruct (Ascii.eqb c1 "}").
  - destruct (skip_ws t1); [|discriminate].
    intros H. injection H as <-. eauto.
  - destruct (parse_members _ _ _) as [[d r]|]; [|discriminate].
    destruct (skip_ws r); [|discriminate].
    intros H. injection H as <-. eauto.
Qed.

End PatternFacts.

(** ** The decoder's fuel is enough *)

Section DecoderFuel.

Lemma skip_ws_le (s : str) : length (skip_ws s) <= length s.
Proof.
  induction s as [|c t IH]; simpl; [lia|].
  destruct (json_ws c); simpl; lia.
Qed.

Lemma scanstring_shrinks (s x r : str) :
  scanstring s = Some (x, r) -> length r < length s.
Proof.
  remember (length s) as n eqn:Hn. revert s x r Hn.
  induction n as [n IH] using lt_wf_ind. intros s x r Hn H.
  destruct s as [|c t]; [discriminate|]. cbn [scanstring] in H.
  destruct (Ascii.eqb c dq).
  { injection H as _ <-. subst n. simpl. lia. }
  destruct (Ascii.eqb c bsl).
  - destruct t as [|e t1]; [discriminate|].
    destruct (Ascii.eqb e "u").
    + destruct t1 as [|h1 [|h2 [|h3 [|h4 t2]]]]; try discriminate.
      destruct (hex4 h1 h2 h3 h4) as [k|]; [|discriminate].
      destruct (k <? 256); [|discriminate].
      destruct (scanstring t2) as [[y r']|] eqn:E; [|discriminate].
      injection H as _ <-.
      assert (length r' < length t2)
        by (eapply (IH (length t2)); [subst n; simpl; lia | reflexivity | exact E]).
      subst n. simpl. lia.
    + destruct (unescape e); [|discriminate].
      destruct (scanstring t1) as [[y r']|] eqn:E; [|discriminate].
      injection H as _ <-.
      assert (length r' < length t1)
        by (eapply (IH (length t1)); [subst n; simpl; lia | reflexivity | exact E]).
      subst n. simpl. lia.
  - destruct (code c <? 32); [discriminate|].
    destruct (scanstring t) as [[y r']|] eqn:E; [|discriminate].
    injection H as _ <-.
    assert (length r' < length t)
      by (eapply (IH (length t)); [subst n; simpl; lia | reflexivity | exact E]).
    subst n. simpl. lia.
Qed.

Lemma span_digits_le (s d r : str) :
  span_digits s = (d, r) -> length r <= length s.
Proof.
  revert d r. induction s as [|c t IH]; intros d r; simpl.
  - intros H. injection H as _ <-. simpl. lia.
  - destruct (is_digit c).
    + destruct (span_digits t) as [d' r'] eqn:E. intros H.
      injection H as _ <-. specialize (IH _ _ eq_refl). lia.
    + intros H. injection H as _ <-. simpl. lia.
Qed.

Lemma scan_number_shrinks (s x r : str) :
  scan_number s = Some (x, r) -> length r < length s.
Proof.
  unfold scan_number.
  assert (Hint : forall s1 i s2, scan_int s1 = Some (i, s2) ->
                                 length s2 < length s1).
  { intros [|c t] i s2; simpl; [discriminate|].
    destruct (Ascii.eqb c "0").
    - intros H. injection H as _ <-. lia.
    - destruct (is_digit c); [|discriminate].
      destruct (span_digits t) as [d r'] eqn:E. intros H.
      injection H as _ <-. apply span_digits_le in E. lia. }
  assert (Hfrac : forall s2 f s3, scan_frac s2 = (f, s3) ->
                                  length s3 <= length s2).
  { intros [|c t] f s3; simpl.
    - intros H. injection H as _ <-. simpl. lia.
    - destruct (Ascii.eqb c ".").
      + destruct (span_digits t) as [[|d0 d] r'] eqn:E; intros H;
          injection H as _ <-; [simpl; lia|].
        apply span_digits_le in E. simpl. lia.
      + intros H. injection H as _ <-. simpl. lia. }
  assert (Hexp : forall s3 e s4, scan_exp s3 = (e, s4) ->
                                 length s4 <= length s3).
  { intros [|c t] e s4; simpl.
    - intros H. injection H as _ <-. simpl. lia.
    - destruct (_ || _).
      + destruct t as [|g t'].
        * simpl. intros H. injection H as _ <-. simpl. lia.
        * destruct (_ || _).
          -- destruct (span_digits t') as [[|d0 d] r'] eqn:E; intros H;
               injection H as _ <-; [simpl; lia|].
             apply span_digits_le in E. simpl. lia.
          -- destruct (span_digits (g :: t')) as [[|d0 d] r'] eqn:E;
               intros H; injection H as _ <-; [simpl; lia|].
             apply span_digits_le in E. simpl in *. lia.
      + intros H. injection H as _ <-. simpl. lia. }
  intros H.
  destruct s as [|c t]; [discriminate|].
  destruct (Ascii.eqb c "-").
  - destruct (scan_int t) as [[i s2]|] eqn:Ei; [|discriminate].
    destruct (scan_frac s2) as [f s3] eqn:Ef.
    destruct (scan_exp s3) as [e s4] eqn:Ee.
    injection H as _ <-.
    apply Hint in Ei. apply Hfrac in Ef. apply Hexp in Ee. simpl. lia.
  - destruct (scan_int (c :: t)) as [[i s2]|] eqn:Ei; [|discriminate].
    destruct (scan_frac s2) as [f s3] eqn:Ef.
    destruct (scan_exp s3) as [e s4] eqn:Ee.
    injection H as _ <-.
    apply Hint in Ei. apply Hfrac in Ef. apply Hexp in Ee. simpl in *. lia.
Qed.

Lemma scan_constant_shrinks (s : str) (v : json) (r : str) :
  scan_constant s = Some (v, r) -> length r < length s.
Proof.
  unfold scan_constant. intros H.
  repeat match type of H with
         | context [strip_prefix ?p s] =>
             let E := fresh "E" in
             destruct (strip_prefix p s) eqn:E;
             [injection H as _ <-; apply strip_prefix_app in E;
              rewrite E, length_app; simpl; lia|]
         end.
  discriminate.
Qed.


Ltac ws_le t :=
  let H := fresh "Hws" in pose proof (skip_ws_le t) as H.

Lemma scan_shrinks (n : nat) :
  (forall s v r, scan_once n s = Some (v, r) -> length r < length s)
  /\ (forall s acc d r,
         parse_members n acc s = Some (d, r) -> length r < length s)
  /\ (forall s l r, parse_items n s = Some (l, r) -> length r < length s).
Proof.
  induction n as [|n [IHv [IHm IHi]]];
    [repeat split; intros; discriminate|].
  split; [|split].
  - intros s v r H. destruct s as [|c t]; [discriminate|].
    cbn [scan_once] in H.
    destruct (Ascii.eqb c dq).
    { destruct (scanstring t) as [[x r']|] eqn:E; [|discriminate].
      injection H as _ <-. apply scanstring_shrinks in E. simpl. lia. }
    destruct (Ascii.eqb c "{").
    { ws_le t. destruct (skip_ws t) as [|c1 t1]; [discriminate|].
      destruct (Ascii.eqb c1 "}").
      - injection H as _ <-. simpl in *. lia.
      - destruct (parse_members n [] (c1 :: t1)) as [[d r']|] eqn:E;
          [|discriminate].
        injection H as _ <-. apply IHm in E. simpl in *. lia. }
    destruct (Ascii.eqb c "[").
    { ws_le t. destruct (skip_ws t) as [|c1 t1]; [discriminate|].
      destruct (Ascii.eqb c1 "]").
      - injection H as _ <-. simpl in *. lia.
      - destruct (parse_items n (c1 :: t1)) as [[l r']|] eqn:E;
          [|discriminate].
        injection H as _ <-. apply IHi in E. simpl in *. lia. }
    destruct (scan_constant (c :: t)) as [[v' r']|] eqn:Ec.
    { injection H as _ <-. now apply scan_constant_shrinks in Ec. }
    destruct (scan_number (c :: t)) as [[x r']|] eqn:En; [|discriminate].
    injection H as _ <-. now apply scan_number_shrinks in En.
  - intros s acc d r H. destruct s as [|c t]; [discriminate|].
    cbn [parse_members] in H.
    destruct (Ascii.eqb c dq); [|discriminate].
    destruct (scanstring t) as [[k r1]|] eqn:Ek; [|discriminate].
    apply scanstring_shrinks in Ek.
    ws_le r1. destruct (skip_ws r1) as [|c2 r2]; [discriminate|].
    destruct (Ascii.eqb c2 ":"); [|discriminate].
    ws_le r2.
    destruct (scan_once n (skip_ws r2)) as [[v r3]|] eqn:Ev; [|discriminate].
    apply IHv in Ev.
    ws_le r3. destruct (skip_ws r3) as [|c4 r4]; [discriminate|].
    destruct (Ascii.eqb c4 "}").
    { injection H as _ <-. simpl in *. lia. }
    destruct (Ascii.eqb c4 ","); [|discriminate].
    ws_le r4. apply IHm in H. simpl in *. lia.
  - intros s l r H. cbn [parse_items] in H.
    destruct (scan_once n s) as [[v r1]|] eqn:Ev; [|discriminate].
    apply IHv in Ev.
    ws_le r1. destruct (skip_ws r1) as [|c2 r2]; [discriminate|].
    destruct (Ascii.eqb c2 "]").
    { injection H as _ <-. simpl in *. lia. }
    destruct (Ascii.eqb c2 ","); [|discriminate].
    ws_le r2.
    destruct (parse_items n (skip_ws r2)) as [[l' r']|] eqn:Ei;
      [|discriminate].
    injection H as _ <-. apply IHi in Ei. simpl in *. lia.
Qed.

(** With more fuel than characters the result does not depend on the
    fuel: the decoder never stops for lack of it. *)
Lemma scan_fuel (n : nat) :
  (forall m s, 2 * length s < n -> 2 * length s < m ->
               scan_once n s = scan_once m s)
  /\ (forall m s acc, 2 * length s + 1 < n -> 2 * length s + 1 < m ->
                      parse_members n acc s = parse_members m acc s)
  /\ (forall m s, 2 * length s + 1 < n -> 2 * length s + 1 < m ->
                  parse_items n s = parse_items m s).
Proof.
  induction n as [|n [IHv [IHm IHi]]]; [repeat split; intros; lia|].
  split; [|split].
  - intros [|m] s Hn Hm; [lia|]. destruct s as [|c t]; [reflexivity|].
    cbn [scan_once]. simpl in Hn, Hm.
    destruct (Ascii.eqb c dq); [reflexivity|].
    destruct (Ascii.eqb c "{").
    { ws_le t. destruct (skip_ws t) as [|c1 t1]; [reflexivity|].
      destruct (Ascii.eqb c1 "}"); [reflexivity|].
      rewrite (IHm m) by (simpl in *; lia). reflexivity. }
    destruct (Ascii.eqb c "[").
    { ws_le t. destruct (skip_ws t) as [|c1 t1]; [reflexivity|].
      destruct (Ascii.eqb c1 "]"); [reflexivity|].
      rewrite (IHi m) by (simpl in *; lia). reflexivity. }
    reflexivity.
  - intros [|m] s acc Hn Hm; [lia|]. destruct s as [|c t]; [reflexivity|].
    cbn [parse_members]. simpl in Hn, Hm.
    destruct (Ascii.eqb c dq); [|reflexivity].
    destruct (scanstring t) as [[k r1]|] eqn:Ek; [|reflexivity].
    apply scanstring_shrinks in Ek.
    ws_le r1. destruct (skip_ws r1) as [|c2 r2]; [reflexivity|].
    destruct (Ascii.eqb c2 ":"); [|reflexivity].
    ws_le r2. rewrite (IHv m) by (simpl in *; lia).
    destruct (scan_once m (skip_ws r2)) as [[v r3]|] eqn:Ev; [|reflexivity].
    apply (proj1 (scan_shrinks m)) in Ev.
    ws_le r3. destruct (skip_ws r3) as [|c4 r4]; [reflexivity|].
    destruct (Ascii.eqb c4 "}"); [reflexivity|].
    destruct (Ascii.eqb c4 ","); [|reflexivity].
    ws_le r4. apply IHm; simpl in *; lia.
  - intros [|m] s Hn Hm; [lia|]. cbn [parse_items].
    rewrite (IHv m) by lia.
    destruct (scan_once m s) as [[v r1]|] eqn:Ev; [|reflexivity].
    apply (proj1 (scan_shrinks m)) in Ev.
    ws_le r1. destruct (skip_ws r1) as [|c2 r2]; [reflexivity|].
    destruct (Ascii.eqb c2 "]"); [reflexivity|].
    destruct (Ascii.eqb c2 ","); [|reflexivity].
    ws_le r2. rewrite (IHi m) by (simpl in *; lia). reflexivity.
Qed.

(** [json_loads] gives what the decoder gives with any larger fuel. *)
Lemma json_loads_fuel (s : str) (k : nat) :
  json_loads s =
  match scan_once (S (2 * length (skip_ws s)) + k) (skip_ws s) with
  | Some (v, r) =>
      match skip_ws r with
      | [] => Some v
      | _ :: _ => None
      end
  | None => None
  end.
Proof.
  unfold json_loads.
  rewrite (proj1 (scan_fuel (S (2 * length (skip_ws s))))
                 (S (2 * length (skip_ws s)) + k) (skip_ws s)) by lia.
  reflexivity.
Qed.

End DecoderFuel.

(** ** The matcher and the decoder agree with their parts *)

Section MatcherFuel.

Lemma flat_map_ext_in {A B} (f g : A -> list B) (l : list A) :
  (forall x, In x l -> f x = g x) -> flat_map f l = flat_map g l.
Proof.
  induction l as [|x l IH]; intros H; simpl; [reflexivity|].
  rewrite (H x) by now left. f_equal. apply IH. intros y Hy. apply H.
  now right.
Qed.

(** With fuel at least the length of the text the iterations of a star
    do not depend on the fuel: every iteration takes a character. *)
Lemma star_run_fuel (step : str -> list str) (n m : nat) (s : str) :
  length s <= n -> length s <= m -> star_run step n s = star_run step m s.
Proof.
  revert m s. induction n as [|n IH]; intros m s Hn Hm.
  - destruct s; [|simpl in Hn; lia]. destruct m; [reflexivity|].
    rewrite star_run_S. simpl length.
    replace (filter (fun t => length t <? 0) (step [])) with (@nil str);
      [reflexivity|].
    induction (step []) as [|x l IHl]; [reflexivity | exact IHl].
  - destruct m as [|m].
    + destruct s; [|simpl in Hm; lia].
      rewrite star_run_S. simpl length.
      replace (filter (fun t => length t <? 0) (step [])) with (@nil str);
        [reflexivity|].
      induction (step []) as [|x l IHl]; [reflexivity | exact IHl].
    + rewrite !star_run_S. f_equal. apply flat_map_ext_in.
      intros t Ht. apply filter_In in Ht as [_ Ht].
      apply Nat.ltb_lt in Ht. apply IH; lia.
Qed.

Lemma first_some_none {A B} (f : A -> option B) (l : list A) :
  first_some f l = None <-> forall x, In x l -> f x = None.
Proof.
  induction l as [|x l IH]; simpl.
  - split; [intros _ y [] | reflexivity].
  - destruct (f x) eqn:E.
    + split; [discriminate|]. intros H. rewrite <- E. apply H. now left.
    + rewrite IH. split.
      * intros H y [<-|Hy]; auto.
      * intros H y Hy. apply H. now right.
Qed.

Lemma flat_map_eq_nil {A B} (f : A -> list B) (l : list A) :
  flat_map f l = [] <-> forall x, In x l -> f x = [].
Proof.
  split; [|apply flat_map_nil].
  induction l as [|x l IH]; simpl; [intros _ y []|].
  intros H y [<-|Hy]; apply app_eq_nil in H as [H1 H2]; auto.
Qed.

(** The group of a pattern is found exactly where the whole pattern
    matches. *)
Lemma match_group_matches (pre grp post : regex) (s : str) :
  match_group pre grp post s = None
  <-> matches (Seq pre (Seq grp post)) s = [].
Proof.
  unfold match_group. cbn [matches].
  rewrite first_some_none, flat_map_eq_nil.
  split; intros H s1 H1; specialize (H s1 H1).
  - apply flat_map_eq_nil. intros s2 H2.
    rewrite first_some_none in H. specialize (H s2 H2).
    destruct (matches post s2); [reflexivity | discriminate].
  - apply first_some_none. intros s2 H2.
    rewrite flat_map_eq_nil in H. now rewrite (H s2 H2).
Qed.

(** On text that starts with a brace [loads_dict] loses nothing of
    [json_loads]. *)
Lemma loads_dict_faithful (s : str) :
  startswith (L "{") s = true ->
  json_loads s = option_map JObject (loads_dict s).
Proof.
  intros H. unfold loads_dict.
  destruct (json_loads s) as [v|] eqn:E; [|reflexivity].
  destruct (json_loads_object s v H E) as [d ->]. reflexivity.
Qed.

End MatcherFuel.

(** ** The library models on sample inputs *)

Section Samples.

Example strip_sample :
  strip (L "  ab c " ++ [nl]) = L "ab c" /\ strip (L "   ") = []
  /\ strip ("028"%char :: L "a" ++ ["133"%char; "160"%char]) = L "a".
Proof. repeat split. Qed.

Example lower_sample : lower (L "B.Tech CGPA") = L "b.tech cgpa".
Proof. reflexivity. Qed.

Example split_last_sample :
  split_last "/" (L "application/pdf") = L "pdf"
  /\ split_last "/" (L "pdf") = L "pdf"
  /\ split_last "/" (L "a/b/") = [].
Proof. repeat split. Qed.

Example file_extension_sample :
  file_extension_of (L "application/PDF") = L "pdf"
  /\ file_extension_of (L "image/JPEG") = L "jpg"
  /\ file_extension_of (L "image/webp") = L "webp".
Proof. repeat split. Qed.

Example re_sub_sample :
  re_sub fence_end (L "x``` " ++ [nl; nl]) = L "x"
  /\ re_sub fence_end (L "a```" ++ [nl] ++ L "b```") = L "a```" ++ [nl] ++ L "b"
  /\ re_sub fence_json (L "```json" ++ [nl] ++ Q " {~a~:~```json~}")
     = Q "{~a~:~~}"
  /\ re_sub_bol fence_start (L "```  {}") = L "{}".
Proof. repeat split. Qed.

Example re_findall_sample :
  re_findall json_pattern (L "x {a{b}c{d}e} y {z} {{{q}}}")
  = [L "{a{b}c{d}e}"; L "{z}"; L "{{q}}"].
Proof. reflexivity. Qed.

Example search_field_sample :
  let t := L "Full Name: Jane Doe, email: 'x@y.z'" ++ [nl]
           ++ L "Phone number:   " ++ [nl] ++ L "cgpa = 3" in
  search_field (L "Full Name") t = Some (L "Jane Doe")
  /\ search_field (L "Email") t = Some (L "x@y.z'")
  /\ search_field (L "Phone Number") t = Some (L "cgpa = 3")
  /\ search_field (L "CGPA") t = None.
Proof. repeat split. Qed.

Example json_loads_sample :
  json_loads (Q " { ~a~ : ~b~ , ~c~: [1, 2.5e3, true, null], ~a~: 7 } ")
  = Some (JObject [(L "a", JNumber (L "7"));
                   (L "c", JArray [JNumber (L "1"); JNumber (L "2.5e3");
                                   JBool true; JNull])])
  /\ json_loads (Q "{~a~: ~\u00e9\n\~~}")
     = Some (JObject [(L "a", JString ["233"%char; nl; dq])])
  /\ json_loads (Q "{~a~: 1,}") = None
  /\ json_loads (Q "{~a~: 01}") = None
  /\ json_loads (Q "{'a': 1}") = None
  /\ json_loads (Q "{~a~: [[[[[[[[1]]]]]]]]}")
     = Some (JObject
               [(L "a",
                 JArray [JArray [JArray [JArray [JArray [JArray [JArray
                   [JArray [JNumber (L "1")]]]]]]]])]).
Proof. repeat split. Qed.

End Samples.

(** ** Facts about the computations *)

Section RunFacts.

Lemma pure_ret {A} (v : A) : pure_trace (ret v) v [].
Proof. intros [sh cs]. unfold ret. simpl. now rewrite app_nil_r. Qed.

Lemma pure_record (c : call) : pure_trace (record c) tt [c].
Proof. intros st. reflexivity. Qed.

Lemma pure_bind {A B} (m : M A) (k : A -> M B) v tr u tr' :
  pure_trace m v tr -> pure_trace (k v) u tr' ->
  pure_trace (bind m k) u (tr ++ tr').
Proof.
  intros Hm Hk st. unfold bind. rewrite Hm, Hk. simpl.
  now rewrite app_assoc.
Qed.

Lemma bind_pure {A B} (m : M A) (k : A -> M B) v tr st :
  pure_trace m v tr ->
  bind m k st = k v {| sheet := sheet st; calls := calls st ++ tr |}.
Proof. intros H. unfold bind. now rewrite H. Qed.

Lemma pure_result {A} (m : M A) v tr st :
  pure_trace m v tr -> result m st = v.
Proof. intros H. unfold result. now rewrite H. Qed.

Lemma pure_calls {A} (m : M A) v tr st :
  pure_trace m v tr -> calls_made m st = tr.
Proof.
  intros H. unfold calls_made, final. rewrite H. simpl.
  rewrite skipn_app, skipn_all, Nat.sub_diag. reflexivity.
Qed.

Lemma pure_sheet {A} (m : M A) v tr st :
  pure_trace m v tr -> sheet (final m st) = sheet st.
Proof. intros H. unfold final. now rewrite H. Qed.

Lemma pure_pdf_to_images (w : World) (path : str) :
  pure_trace (pdf_to_images w path)
             match convert_from_path w path with
             | Some images => images
             | None => []
             end
             [CallRasterize path].
Proof.
  unfold pdf_to_images.
  apply (pure_bind _ _ tt [CallRasterize path] _ []).
  - apply pure_record.
  - apply pure_ret.
Qed.

Lemma pure_ocr_pages (w : World) (images : list image) (text : str) :
  exists v tr, pure_trace (ocr_pages w images text) v tr.
Proof.
  revert text. induction images as [|img rest IH]; intros text; simpl.
  - eexists _, _. apply pure_ret.
  - destruct (image_to_string w img NoArgs) as [t|].
    + destruct (IH (text ++ t)) as [v [tr H]].
      exists v, ([CallOcr img NoArgs] ++ tr).
      eapply pure_bind; [apply pure_record | exact H].
    + exists None, ([CallOcr img NoArgs] ++ []).
      eapply pure_bind; [apply pure_record | apply pure_ret].
Qed.

(** The PDF extractor returns [strip] of some text. *)
Lemma pure_extract_text_from_pdf (w : World) (path : str) :
  exists x tr, pure_trace (extract_text_from_pdf w path) (strip x) tr.
Proof.
  unfold extract_text_from_pdf.
  destruct (pdf_read w path) as [pages|].
  - destruct (length (strip (List.concat (map page_text pages))) <? 20).
    + pose proof (pure_pdf_to_images w path) as Himg.
      destruct (convert_from_path w path) as [[|img rest]|].
      * eexists _, _. eapply pure_bind; [apply pure_record|].
        eapply pure_bind; [exact Himg | apply pure_ret].
      * destruct (pure_ocr_pages w (img :: rest)
                    (List.concat (map page_text pages))) as [[t|] [tr H]].
        -- exists t. eexists. eapply pure_bind; [apply pure_record|].
           eapply pure_bind; [exact Himg|].
           eapply pure_bind; [exact H | apply pure_ret].
        -- exists []. eexists. eapply pure_bind; [apply pure_record|].
           eapply pure_bind; [exact Himg|].
           eapply pure_bind; [exact H | apply pure_ret].
      * eexists _, _. eapply pure_bind; [apply pure_record|].
        eapply pure_bind; [exact Himg | apply pure_ret].
    + eexists _, _. eapply pure_bind; [apply pure_record | apply pure_ret].
  - exists []. eexists. eapply pure_bind; [apply pure_record | apply pure_ret].
Qed.

(** So does the image extractor. *)
Lemma pure_extract_text_from_image (w : World) (path : str) :
  exists x tr, pure_trace (extract_text_from_image w path) (strip x) tr.
Proof.
  unfold extract_text_from_image.
  destruct (image_open w path) as [img|].
  - destruct (image_to_string w img (Lang (L "eng"))) as [text|].
    + destruct (length (strip text) <? 10).
      * destruct (image_to_string w img (Config custom_config)) as [t|].
        -- exists t. eexists. repeat (eapply pure_bind; [apply pure_record|]).
           apply pure_ret.
        -- exists []. eexists.
           repeat (eapply pure_bind; [apply pure_record|]). apply pure_ret.
      * exists text. eexists.
        repeat (eapply pure_bind; [apply pure_record|]). apply pure_ret.
    + exists []. eexists.
      repeat (eapply pure_bind; [apply pure_record|]). apply pure_ret.
  - exists []. eexists.
    repeat (eapply pure_bind; [apply pure_record|]). apply pure_ret.
Qed.

Lemma pure_extract_media_text (w : World) (ext name path : str) :
  exists x tr, pure_trace (extract_media_text w ext name path) (strip x) tr.
Proof.
  unfold extract_media_text.
  destruct (pure_extract_text_from_pdf w path) as [x [tr H]].
  destruct (pure_extract_text_from_image w path) as [y [tr' H']].
  destruct (_ || _).
  - destruct (length (strip (strip x)) <? 50) eqn:E.
    + destruct (length (strip (strip x)) <? length (strip (strip y))) eqn:E'.
      * exists y. eexists. eapply pure_bind; [exact H|]. rewrite E.
        eapply pure_bind; [exact H'|]. rewrite E'. apply pure_ret.
      * exists x. eexists. eapply pure_bind; [exact H|]. rewrite E.
        eapply pure_bind; [exact H'|]. rewrite E'. apply pure_ret.
    + exists x. eexists. eapply pure_bind; [exact H|]. rewrite E.
      apply pure_ret.
  - eauto.
Qed.

Lemma pure_extract_resume_info (w : World) (c : ascii) (t : str) :
  pure_trace (extract_resume_info w (c :: t))
             (record_for (generate_content w (build_prompt (c :: t))))
             [CallGenerate (build_prompt (c :: t))].
Proof.
  unfold extract_resume_info, record_for.
  apply (pure_bind _ _ tt [CallGenerate (build_prompt (c :: t))] _ []);
    [apply pure_record|].
  destruct (generate_content w (build_prompt (c :: t))) as [e|r];
    [apply pure_ret|].
  destruct (extract_json_from_response r) as [[|p d]|]; apply pure_ret.
Qed.

End RunFacts.

(** ** Text extraction *)

Section Extraction.

Lemma ocr_pages_raises (w : World) (images : list image) (text : str)
      (st : Store) :
  (exists img, In img images /\ image_to_string w img NoArgs = None) ->
  result (ocr_pages w images text) st = None.
Proof.
  revert text st. induction images as [|h rest IH]; intros text st [img [Hin Hraise]].
  - contradiction.
  - unfold result. simpl. unfold bind, record.
    destruct (image_to_string w h NoArgs) as [t|] eqn:E; [|reflexivity].
    destruct Hin as [->|Hin]; [congruence|].
    apply IH. eauto.
Qed.

(** When every page image is read, the readings follow the text of the
    text layer, in page order. *)
Lemma pure_ocr_pages_read (w : World) (images : list image)
      (texts : list str) (text : str) :
  Forall2 (fun img t => image_to_string w img NoArgs = Some t) images texts ->
  pure_trace (ocr_pages w images text)
             (Some (text ++ List.concat texts))
             (map (fun img => CallOcr img NoArgs) images).
Proof.
  intros H. revert text.
  induction H as [|img t images texts E _ IH]; intros text.
  - cbn [ocr_pages List.concat map]. rewrite app_nil_r. apply pure_ret.
  - cbn [ocr_pages List.concat map].
    apply (pure_bind _ _ tt [CallOcr img NoArgs] _ _ (pure_record _)).
    rewrite E, app_assoc. apply IH.
Qed.

(** C2, as the code has it: when the text of the text layer is shorter
    than 20 after stripping and the pages are rasterized, every page
    image is read, and the text returned is the text of the text layer
    followed by the readings, stripped as a whole: the readings are
    appended to the direct text, they do not replace it.  With 20
    characters or more no page is rasterized or read. *)
Theorem C2_pdf_ocr_fallback_appends (w : World) (path : str) (st : Store)
        (pages : list (option str)) :
  pdf_read w path = Some pages ->
  let direct := List.concat (map page_text pages) in
  (forall img rest texts,
      length (strip direct) < 20 ->
      convert_from_path w path = Some (img :: rest) ->
      Forall2 (fun i t => image_to_string w i NoArgs = Some t)
              (img :: rest) texts ->
      calls_made (extract_text_from_pdf w path) st
      = CallPdfRead path :: CallRasterize path
        :: map (fun i => CallOcr i NoArgs) (img :: rest)
      /\ result (extract_text_from_pdf w path) st
         = strip (direct ++ List.concat texts))
  /\ (20 <= length (strip direct) ->
      calls_made (extract_text_from_pdf w path) st = [CallPdfRead path]
      /\ result (extract_text_from_pdf w path) st = strip direct).
Proof.
  intros Hpdf direct. split.
  - intros img rest texts Hlen Himg Hocr.
    assert (H : pure_trace (extract_text_from_pdf w path)
                  (strip (direct ++ List.concat texts))
                  ([CallPdfRead path]
                     ++ [CallRasterize path]
                     ++ map (fun i => CallOcr i NoArgs) (img :: rest) ++ [])).
    { unfold extract_text_from_pdf.
      eapply pure_bind; [apply pure_record|]. rewrite Hpdf. fold direct.
      apply Nat.ltb_lt in Hlen. rewrite Hlen.
      eapply pure_bind; [apply pure_pdf_to_images|]. rewrite Himg.
      eapply pure_bind; [apply (pure_ocr_pages_read _ _ _ _ Hocr)|].
      apply pure_ret. }
    rewrite (pure_calls _ _ _ st H), (pure_result _ _ _ st H).
    rewrite app_nil_r. auto.
  - intros Hlen.
    assert (H : pure_trace (extract_text_from_pdf w path) (strip direct)
                           ([CallPdfRead path] ++ [])).
    { unfold extract_text_from_pdf.
      eapply pure_bind; [apply pure_record|]. rewrite Hpdf. fold direct.
      apply Nat.ltb_ge in Hlen. rewrite Hlen. apply pure_ret. }
    rewrite (pure_calls _ _ _ st H), (pure_result _ _ _ st H). auto.
Qed.

Lemma C2_pdf_ocr_fallback_appends_witness :
  let m := extract_text_from_pdf scanned_pdf (L "downloads/resume_1.pdf") in
  calls_made m empty_store
  = [CallPdfRead (L "downloads/resume_1.pdf");
     CallRasterize (L "downloads/resume_1.pdf"); CallOcr 0 NoArgs]
  /\ result m empty_store = L "abcde" ++ page_ocr_40.
Proof.
  destruct (C2_pdf_ocr_fallback_appends
              scanned_pdf (L "downloads/resume_1.pdf") empty_store
              [Some (L "abcde")] eq_refl) as [H _].
  destruct (H 0 [] [page_ocr_40]) as [Hc Hr];
    [vm_compute; lia | reflexivity
     | constructor; [reflexivity | constructor] |].
  cbv zeta. rewrite Hc, Hr. split; reflexivity.
Defined.

(** C2 as stated fails: the text layer gives five characters, the
    page-by-page OCR is invoked and gives forty, and the text returned
    is the five characters followed by the forty, not the OCR text
    alone. *)
Lemma C2_counterexample :
  let m := extract_text_from_pdf scanned_pdf (L "downloads/resume_1.pdf") in
  pdf_read scanned_pdf (L "downloads/resume_1.pdf") = Some [Some (L "abcde")]
  /\ length (strip (L "abcde")) = 5
  /\ image_to_string scanned_pdf 0 NoArgs = Some page_ocr_40
  /\ length (strip page_ocr_40) = 40
  /\ calls_made m empty_store =
     [CallPdfRead (L "downloads/resume_1.pdf");
      CallRasterize (L "downloads/resume_1.pdf");
      CallOcr 0 NoArgs]
  /\ result m empty_store = L "abcde" ++ page_ocr_40
  /\ result m empty_store <> page_ocr_40.
Proof.
  cbv zeta. repeat split; try reflexivity.
  vm_compute. discriminate.
Qed.

(** In the handler a PDF whose extracted text is shorter than 50 after
    stripping is also read as an image, and that reading replaces the
    text when it is strictly longer. *)
Lemma media_text_prefers_longer (w : World) (ext name path : str)
      (st : Store) :
  str_eqb (lower ext) (L "pdf") || endswith (L ".pdf") (lower name) = true ->
  exists pdf_text ocr_text,
    (forall s, result (extract_text_from_pdf w path) s = pdf_text)
    /\ (forall s, result (extract_text_from_image w path) s = ocr_text)
    /\ result (extract_media_text w ext name path) st
       = if length (strip pdf_text) <? 50 then
           if length (strip pdf_text) <? length (strip ocr_text)
           then ocr_text else pdf_text
         else pdf_text.
Proof.
  intros Hpdf.
  destruct (pure_extract_text_from_pdf w path) as [x [tr H]].
  destruct (pure_extract_text_from_image w path) as [y [tr' H']].
  exists (strip x), (strip y).
  split; [intros s; apply (pure_result _ _ _ s H)|].
  split; [intros s; apply (pure_result _ _ _ s H')|].
  unfold result, extract_media_text. rewrite Hpdf.
  rewrite (bind_pure _ _ _ _ st H).
  destruct (length (strip (strip x)) <? 50); [|reflexivity].
  rewrite (bind_pure _ _ _ _ _ H').
  destruct (_ <? _); reflexivity.
Qed.

(** C3, as the code has it: when the first reading is shorter than 10
    after stripping, exactly one more reading is made, with the
    configuration [--oem 3 --psm 6], and the text returned is the
    stripped second reading (the empty string when it raises), whatever
    the first reading was; otherwise the stripped first reading is
    returned and no second reading is made. *)
Theorem C3_image_retry_replaces (w : World) (path : str) (st : Store)
        (img : image) (text : str) :
  image_open w path = Some img ->
  image_to_string w img (Lang (L "eng")) = Some text ->
  (length (strip text) < 10 ->
   calls_made (extract_text_from_image w path) st =
     [CallImageOpen path; CallOcr img (Lang (L "eng"));
      CallOcr img (Config (L "--oem 3 --psm 6"))]
   /\ result (extract_text_from_image w path) st =
      match image_to_string w img (Config (L "--oem 3 --psm 6")) with
      | Some text' => strip text'
      | None => []
      end)
  /\ (10 <= length (strip text) ->
      calls_made (extract_text_from_image w path) st =
        [CallImageOpen path; CallOcr img (Lang (L "eng"))]
      /\ result (extract_text_from_image w path) st = strip text).
Proof.
  intros Hopen Hfirst.
  unfold calls_made, final, result, extract_text_from_image, bind, record, ret.
  rewrite Hopen. run_step. rewrite Hfirst. split; intros Hlen.
  - apply Nat.ltb_lt in Hlen. rewrite Hlen. run_step.
    change custom_config with (L "--oem 3 --psm 6").
    destruct (image_to_string w img (Config (L "--oem 3 --psm 6")));
      run_step; rewrite <- !app_assoc, skipn_app, skipn_all, Nat.sub_diag;
      auto.
  - apply Nat.ltb_ge in Hlen. rewrite Hlen. run_step.
    rewrite <- !app_assoc, skipn_app, skipn_all, Nat.sub_diag. auto.
Qed.

Lemma C3_image_retry_replaces_witness :
  image_open faint_image (L "photo.png") = Some 0
  /\ image_to_string faint_image 0 (Lang (L "eng")) = Some (L "abcde")
  /\ length (strip (L "abcde")) < 10
  /\ calls_made (extract_text_from_image faint_image (L "photo.png"))
                empty_store =
     [CallImageOpen (L "photo.png"); CallOcr 0 (Lang (L "eng"));
      CallOcr 0 (Config (L "--oem 3 --psm 6"))]
  /\ result (extract_text_from_image faint_image (L "photo.png"))
            empty_store = [].
Proof.
  split; [reflexivity|]. split; [reflexivity|].
  split; [vm_compute; lia|].
  apply (C3_image_retry_replaces faint_image (L "photo.png") empty_store
                                 0 (L "abcde") eq_refl eq_refl).
  vm_compute; lia.
Defined.

(** C3 as stated fails: the first reading has five characters, the
    second none, and the text returned is the second, not the longer
    first. *)
Lemma C3_counterexample :
  image_to_string faint_image 0 (Lang (L "eng")) = Some (L "abcde")
  /\ image_to_string faint_image 0 (Config custom_config) = Some []
  /\ length (strip []) < length (strip (L "abcde"))
  /\ result (extract_text_from_image faint_image (L "photo.png"))
            empty_store <> strip (L "abcde").
Proof.
  repeat split; try reflexivity.
  - vm_compute. lia.
  - vm_compute. discriminate.
Qed.

(** C9: both extractors return a string without white space at either
    end, on every input and whatever the collaborators do; when a call
    raises, that string is empty. *)
Theorem C9_extracted_text_is_trimmed (w : World) (path : str) (st : Store) :
  trimmed (result (extract_text_from_pdf w path) st)
  /\ trimmed (result (extract_text_from_image w path) st)
  /\ (pdf_read w path = None ->
      result (extract_text_from_pdf w path) st = [])
  /\ (forall pages images,
         pdf_read w path = Some pages ->
         length (strip (List.concat (map page_text pages))) < 20 ->
         convert_from_path w path = Some images ->
         (exists img, In img images /\ image_to_string w img NoArgs = None) ->
         result (extract_text_from_pdf w path) st = [])
  /\ (image_open w path = None ->
      result (extract_text_from_image w path) st = [])
  /\ (forall img,
         image_open w path = Some img ->
         image_to_string w img (Lang (L "eng")) = None ->
         result (extract_text_from_image w path) st = [])
  /\ (forall img text,
         image_open w path = Some img ->
         image_to_string w img (Lang (L "eng")) = Some text ->
         length (strip text) < 10 ->
         image_to_string w img (Config custom_config) = None ->
         result (extract_text_from_image w path) st = []).
Proof.
  split; [|split].
  - destruct (pure_extract_text_from_pdf w path) as [x [tr H]].
    rewrite (pure_result _ _ _ st H). apply strip_trimmed.
  - destruct (pure_extract_text_from_image w path) as [x [tr H]].
    rewrite (pure_result _ _ _ st H). apply strip_trimmed.
  - repeat split.
    + intros H. unfold result, extract_text_from_pdf, bind, record, ret.
      now rewrite H.
    + intros pages images Hpdf Hlen Himg Hraise.
      unfold result, extract_text_from_pdf, bind, record, pdf_to_images, ret.
      rewrite Hpdf. apply Nat.ltb_lt in Hlen. rewrite Hlen. simpl.
      rewrite Himg. destruct images as [|img rest].
      { destruct Hraise as [? [[] _]]. }
      match goal with
      | |- context [ocr_pages w ?i ?t ?s] =>
          pose proof (ocr_pages_raises w i t s Hraise) as H;
          unfold result in H; destruct (ocr_pages w i t s) as [r s']
      end.
      simpl in H. subst r. reflexivity.
    + intros H. unfold result, extract_text_from_image, bind, record, ret.
      now rewrite H.
    + intros img Hopen H.
      unfold result, extract_text_from_image, bind, record, ret.
      rewrite Hopen. run_step. now rewrite H.
    + intros img text Hopen Hfirst Hlen H.
      unfold result, extract_text_from_image, bind, record, ret.
      rewrite Hopen. run_step. rewrite Hfirst.
      apply Nat.ltb_lt in Hlen. rewrite Hlen. run_step. now rewrite H.
Qed.

Lemma C9_extracted_text_is_trimmed_witness :
  pdf_read offline (L "a.pdf") = None
  /\ image_open offline (L "a.pdf") = None
  /\ result (extract_text_from_pdf offline (L "a.pdf")) empty_store = []
  /\ result (extract_text_from_image offline (L "a.pdf")) empty_store = [].
Proof.
  split; [reflexivity|]. split; [reflexivity|].
  destruct (C9_extracted_text_is_trimmed offline (L "a.pdf") empty_store)
    as [_ [_ [Hpdf [_ [Himg _]]]]].
  split; [exact (Hpdf eq_refl) | exact (Himg eq_refl)].
Defined.

End Extraction.

(** ** Field recovery *)

Section FieldRecovery.

Lemma extract_resume_info_result (w : World) (text : str) (st : Store)
      (response : str) :
  text <> [] -> generate_content w (build_prompt text) = inr response ->
  result (extract_resume_info w text) st = record_for (inr response).
Proof.
  destruct text as [|c t]; [congruence|]. intros _ H.
  rewrite (pure_result _ _ _ st (pure_extract_resume_info w c t)).
  now rewrite H.
Qed.

(** A parsed mapping that has a key is returned as it is. *)
Lemma parsed_record_returned (w : World) (text : str) (st : Store)
      (response : str) (d : pydict) :
  text <> [] -> generate_content w (build_prompt text) = inr response ->
  extract_json_from_response response = Some d -> d <> [] ->
  result (extract_resume_info w text) st = d.
Proof.
  intros Ht Hg Hp Hd.
  rewrite (extract_resume_info_result w text st response Ht Hg).
  unfold record_for. rewrite Hp. destruct d; congruence.
Qed.

(** No mapping, or an empty one, gives the fallback record. *)
Lemma unparsed_record_is_fallback (w : World) (text : str) (st : Store)
      (response : str) :
  text <> [] -> generate_content w (build_prompt text) = inr response ->
  extract_json_from_response response = None
  \/ extract_json_from_response response = Some [] ->
  result (extract_resume_info w text) st = fallback_record response.
Proof.
  intros Ht Hg Hp.
  rewrite (extract_resume_info_result w text st response Ht Hg).
  unfold record_for. destruct Hp as [-> | ->]; reflexivity.
Qed.

Lemma fallback_record_fields (response : str) (f : str) :
  In f FIELDS -> dict_get f (fallback_record response) = Some NA.
Proof.
  intros H. simpl in H.
  repeat (destruct H as [<- | H]; [reflexivity|]). contradiction.
Qed.

Lemma manual_fields_none (cleaned_text : str) :
  (forall f, In f FIELDS -> search_field f cleaned_text = None) ->
  manual_fields cleaned_text = [].
Proof.
  intros H. unfold manual_fields, FIELDS. cbn [fold_left].
  rewrite !H by (simpl; auto 10). reflexivity.
Qed.

(** Without braces only the manual extraction can produce a mapping. *)
Lemma extract_json_no_braces (response : str) :
  no_braces response ->
  extract_json_from_response response =
  match manual_fields (remove_fences (strip response)) with
  | [] => None
  | result => Some result
  end.
Proof.
  intros [Hopen _]. unfold extract_json_from_response.
  assert (H1 : ~ In "{"%char (strip response))
    by (intros H; apply Hopen, strip_incl, H).
  assert (H2 : ~ In "{"%char (remove_fences (strip response)))
    by (intros H; apply H1, remove_fences_incl, H).
  rewrite (looks_like_object_no_brace _ H1).
  rewrite (looks_like_object_no_brace _ H2).
  rewrite (re_findall_no_brace _ H2). reflexivity.
Qed.

(** C8: when the model answers with the empty JSON object, the parsing
    chain does return the empty mapping, and [extract_resume_info]
    returns not that mapping but the all-N/A record with the raw answer
    as diagnostic. *)
Theorem C8_empty_object_is_parse_failure (w : World) (text : str)
        (st : Store) :
  text <> [] ->
  generate_content w (build_prompt text) = inr (L "{}") ->
  extract_json_from_response (L "{}") = Some []
  /\ result (extract_resume_info w text) st <> []
  /\ result (extract_resume_info w text) st =
     [(L "Full Name", JString (L "N/A")); (L "Email", JString (L "N/A"));
      (L "Phone Number", JString (L "N/A")); (L "CGPA", JString (L "N/A"));
      (L "BTech College Name", JString (L "N/A"));
      (L "raw_response", JString (L "{}"))].
Proof.
  intros Ht Hg.
  assert (Hp : extract_json_from_response (L "{}") = Some [])
    by (vm_compute; reflexivity).
  rewrite (unparsed_record_is_fallback w text st (L "{}") Ht Hg (or_intror Hp)).
  split; [exact Hp|]. split; [discriminate | reflexivity].
Qed.

Lemma C8_empty_object_is_parse_failure_witness :
  dict_get (L "raw_response")
           (result (extract_resume_info (answering (L "{}")) resume_text)
                   empty_store)
  = Some (JString (L "{}")).
Proof.
  destruct (C8_empty_object_is_parse_failure
              (answering (L "{}")) resume_text empty_store)
    as [_ [_ H]]; [discriminate | reflexivity |].
  rewrite H. reflexivity.
Defined.

(** C1, as the code has it: [extract_resume_info] returns a parsed
    mapping that has a key as it is, so a canonical field absent from it
    stays absent; it returns the fully populated all-N/A record when the
    parsing chain gives no mapping or an empty one; and the row built
    from any record has the five columns, each the value of its
    canonical field or N/A when the field is absent. *)
Theorem C1_record_population (w : World) (text : str) (st : Store)
        (response : str) :
  text <> [] ->
  generate_content w (build_prompt text) = inr response ->
  let rec := result (extract_resume_info w text) st in
  (forall d, extract_json_from_response response = Some d -> d <> [] ->
             rec = d)
  /\ (extract_json_from_response response = None
      \/ extract_json_from_response response = Some [] ->
      fully_populated rec /\ forall f, In f FIELDS -> dict_get f rec = Some NA)
  /\ row_of rec = map (fun f => get_default f NA rec) FIELDS
  /\ length (row_of rec) = 5.
Proof.
  intros Ht Hg rec. split; [|split; [|split]].
  - intros d Hp Hd. exact (parsed_record_returned w text st response d Ht Hg Hp Hd).
  - intros Hp. unfold rec.
    rewrite (unparsed_record_is_fallback w text st response Ht Hg Hp).
    split.
    + intros f Hf. now rewrite (fallback_record_fields response f Hf).
    + apply fallback_record_fields.
  - reflexivity.
  - reflexivity.
Qed.

Lemma C1_record_population_witness :
  let rec := result (extract_resume_info (answering jane_only) resume_text)
                    empty_store in
  rec = [(L "Full Name", JString (L "Jane Doe"))]
  /\ row_of rec = [JString (L "Jane Doe"); NA; NA; NA; NA].
Proof.
  destruct (C1_record_population (answering jane_only) resume_text
                                 empty_store jane_only)
    as [H [_ [Hrow _]]]; [discriminate | reflexivity |].
  cbv zeta. rewrite Hrow.
  rewrite (H [(L "Full Name", JString (L "Jane Doe"))]);
    [split; reflexivity | vm_compute; reflexivity | discriminate].
Defined.

(** C1 as stated fails: the model answers with an object that has the
    name only, the input is not empty, and the record returned has no
    [Email] key. *)
Lemma C1_counterexample :
  resume_text <> []
  /\ generate_content (answering jane_only) (build_prompt resume_text)
     = inr jane_only
  /\ extract_json_from_response jane_only
     = Some [(L "Full Name", JString (L "Jane Doe"))]
  /\ dict_get (L "Email")
              (result (extract_resume_info (answering jane_only) resume_text)
                      empty_store) = None
  /\ ~ fully_populated
         (result (extract_resume_info (answering jane_only) resume_text)
                 empty_store).
Proof.
  split; [discriminate|]. split; [reflexivity|].
  split; [vm_compute; reflexivity|].
  assert (H : dict_get (L "Email")
                (result (extract_resume_info (answering jane_only) resume_text)
                        empty_store) = None) by (vm_compute; reflexivity).
  split; [exact H|]. intros Hfull.
  apply (Hfull (L "Email")); [simpl; auto | exact H].
Qed.

End FieldRecovery.

(** ** The parsing chain *)

Section ParsingChain.

Lemma fields_cases (P : str -> Prop) :
  P (L "Full Name") -> P (L "Email") -> P (L "Phone Number") ->
  P (L "CGPA") -> P (L "BTech College Name") ->
  forall f, In f FIELDS -> P f.
Proof.
  intros H1 H2 H3 H4 H5 f Hf. simpl in Hf.
  repeat (destruct Hf as [<- | Hf]; [assumption|]). contradiction.
Qed.

(** C6, as the code has it: when the answer holds no brace and, with its
    fence markers removed, matches none of the five field patterns, the
    parsing chain gives no mapping and the record returned has the five
    canonical fields at N/A and one more field, named [raw_response],
    holding the first 500 characters of the answer; whenever the parsing
    chain gives a mapping that has a key, the record returned is that
    mapping, with nothing added; and the fallback record is returned
    exactly when the chain gives no mapping or an empty one. *)
Theorem C6_unparsed_response_degrades (w : World) (text : str) (st : Store)
        (response : str) :
  text <> [] ->
  generate_content w (build_prompt text) = inr response ->
  let rec := result (extract_resume_info w text) st in
  (no_braces response ->
   (forall f, In f FIELDS ->
              search_field f (remove_fences (strip response)) = None) ->
   extract_json_from_response response = None
   /\ keys rec = FIELDS ++ [L "raw_response"]
   /\ (forall f, In f FIELDS -> dict_get f rec = Some (JString (L "N/A")))
   /\ dict_get (L "raw_response") rec = Some (JString (firstn 500 response))
   /\ length (firstn 500 response) <= 500)
  /\ (forall d, extract_json_from_response response = Some d -> d <> [] ->
                rec = d)
  /\ (extract_json_from_response response = None
      \/ extract_json_from_response response = Some [] ->
      rec = fallback_record response).
Proof.
  intros Ht Hg rec. split; [|split].
  - intros Hb Hf.
    assert (Hp : extract_json_from_response response = None).
    { rewrite (extract_json_no_braces response Hb).
      now rewrite (manual_fields_none _ Hf). }
    unfold rec.
    rewrite (unparsed_record_is_fallback w text st response Ht Hg (or_introl Hp)).
    split; [exact Hp|]. split; [reflexivity|].
    split; [apply fallback_record_fields|].
    split; [reflexivity | apply firstn_le_length].
  - intros d. apply (parsed_record_returned w text st response d Ht Hg).
  - apply (unparsed_record_is_fallback w text st response Ht Hg).
Qed.

Lemma C6_unparsed_response_degrades_witness :
  let rec := result (extract_resume_info (answering (L "hello")) resume_text)
                    empty_store in
  no_braces (L "hello")
  /\ extract_json_from_response (L "hello") = None
  /\ dict_get (L "Email") rec = Some (JString (L "N/A"))
  /\ dict_get (L "raw_response") rec = Some (JString (L "hello")).
Proof.
  assert (Hb : no_braces (L "hello"))
    by (split; simpl; intuition discriminate).
  destruct (C6_unparsed_response_degrades
              (answering (L "hello")) resume_text empty_store (L "hello"))
    as [H _]; [discriminate | reflexivity |].
  destruct (H Hb) as [Hp [_ [Hf [Hraw _]]]].
  - apply fields_cases; vm_compute; reflexivity.
  - cbv zeta. split; [exact Hb|]. split; [exact Hp|].
    split; [apply Hf; simpl; auto | exact Hraw].
Defined.

(** C6 as stated fails twice.  The diagnostic field is not named
    [raw_model_response]: for the answer [hello] the record has no such
    key.  And an answer without braces that matches none of the five
    patterns can still give a field: in [Email```json: foo] the marker
    stands between the label and the colon, the chain removes it, and the
    record is the mapping of [Email] to [foo]. *)
Lemma C6_counterexample :
  (no_braces (L "hello")
   /\ (forall f, In f FIELDS -> search_field f (L "hello") = None)
   /\ dict_get (L "raw_model_response")
               (result (extract_resume_info (answering (L "hello"))
                                            resume_text) empty_store) = None)
  /\ (no_braces (L "Email```json: foo")
      /\ (forall f, In f FIELDS ->
                    search_field f (L "Email```json: foo") = None)
      /\ result (extract_resume_info (answering (L "Email```json: foo"))
                                     resume_text) empty_store
         = [(L "Email", JString (L "foo"))]).
Proof.
  split; (split; [split; simpl; intuition discriminate|]);
    (split; [apply fields_cases; vm_compute; reflexivity
            | vm_compute; reflexivity]).
Qed.

Lemma looks_like_object_fence (J : str) : looks_like_object (fence J) = false.
Proof. reflexivity. Qed.

(** C7, as the code has it: for a body that parses as a bare JSON object
    and holds no [```json] marker, the chain gives the same mapping for
    the body inside a [json] fence as for the body alone. *)
Theorem C7_fence_idempotence (J : str) (d : pydict) :
  looks_like_object (strip J) = true ->
  loads_dict (strip J) = Some d ->
  contains (L "```json") J = false ->
  extract_json_from_response (fence J) = Some d
  /\ extract_json_from_response J = Some d.
Proof.
  intros Hobj Hload Habs. unfold extract_json_from_response. split.
  - rewrite strip_fence, looks_like_object_fence.
    rewrite remove_fences_fence; [now rewrite Hobj, Hload | | exact Habs].
    unfold looks_like_object in Hobj.
    now apply andb_true_iff in Hobj as [H _].
  - now rewrite Hobj, Hload.
Qed.

Lemma C7_fence_idempotence_witness :
  extract_json_from_response (fence jane_full)
  = extract_json_from_response jane_full.
Proof.
  destruct (C7_fence_idempotence
              jane_full
              [(L "Full Name", JString (L "Jane Doe"));
               (L "Email", JString (L "jane@x.com"));
               (L "Phone Number", JString (L "9999999999"));
               (L "CGPA", JString (L "9.1"));
               (L "BTech College Name", JString (L "XYZ Institute"))])
    as [H1 H2];
    [vm_compute; reflexivity | vm_compute; reflexivity
     | vm_compute; reflexivity | ].
  now rewrite H1, H2.
Defined.

(** C7 as stated fails: a body that parses as a bare JSON object and
    holds the marker inside a string loses it inside the fence. *)
Lemma C7_counterexample :
  looks_like_object (strip marker_body) = true
  /\ loads_dict (strip marker_body) = Some [(L "a", JString (L "```json"))]
  /\ extract_json_from_response marker_body
     = Some [(L "a", JString (L "```json"))]
  /\ extract_json_from_response (fence marker_body)
     = Some [(L "a", JString [])]
  /\ extract_json_from_response (fence marker_body)
     <> extract_json_from_response marker_body.
Proof.
  repeat split; try (vm_compute; reflexivity).
  vm_compute. discriminate.
Qed.

End ParsingChain.

(** ** The intake handler *)

Section Intake.

Lemma persist_run (w : World) (data : pydict) (st : Store) :
  persist w data st =
  (tt, {| sheet := if append_row w (sheet st) (row_of data)
                   then sheet st ++ [row_of data] else sheet st;
          calls := calls st ++ [CallAppendRow (row_of data)] |}).
Proof.
  unfold persist, bind, record. run_step.
  destruct (append_row w (sheet st) (row_of data)); reflexivity.
Qed.

(** The last two steps of both paths. *)
Lemma recover_and_persist_run (w : World) (c : ascii) (t : str) (st : Store) :
  let data := record_for (generate_content w (build_prompt (c :: t))) in
  (data <- extract_resume_info w (c :: t) ;;
   persist w data ;;
   ret (Reply (MsgSuccess data))) st =
  (Reply (MsgSuccess data),
   {| sheet := if append_row w (sheet st) (row_of data)
               then sheet st ++ [row_of data] else sheet st;
      calls := calls st ++ [CallGenerate (build_prompt (c :: t));
                            CallAppendRow (row_of data)] |}).
Proof.
  intros data.
  rewrite (bind_pure _ _ _ _ st (pure_extract_resume_info w c t)).
  fold data. unfold bind. rewrite persist_run. unfold ret. run_step.
  now rewrite <- app_assoc.
Qed.

Lemma strip_length_nil (s : str) : 0 < length (strip s) -> s <> [].
Proof. intros H ->. simpl in H. lia. Qed.

Lemma text_path_run (w : World) (req : Request) (st : Store) :
  let body := or_default (Body req) [] in
  text_path w req st =
  if 10 <? length (strip body) then
    if has_keyword body then
      let data := record_for (generate_content w (build_prompt body)) in
      (Reply (MsgSuccess data),
       {| sheet := if append_row w (sheet st) (row_of data)
                   then sheet st ++ [row_of data] else sheet st;
          calls := calls st ++ [CallGenerate (build_prompt body);
                                CallAppendRow (row_of data)] |})
    else (Reply MsgResumeHint, st)
  else (Reply MsgGeneric, st).
Proof.
  intros body. unfold text_path. fold body. fold (has_keyword body).
  destruct (10 <? length (strip body)) eqn:Hlen.
  - destruct body as [|c t] eqn:Hb.
    + discriminate Hlen.
    + cbn [length Nat.eqb negb andb].
      destruct (has_keyword (c :: t)); [|reflexivity].
      apply recover_and_persist_run.
  - rewrite andb_false_r. reflexivity.
Qed.

Lemma media_path_success (w : World) (req : Request) (st st' : Store)
      (data : pydict) :
  media_path w req st = (Reply (MsgSuccess data), st') ->
  exists c t pre,
    data = record_for (generate_content w (build_prompt (c :: t)))
    /\ calls st' = calls st ++ pre ++ [CallGenerate (build_prompt (c :: t));
                                      CallAppendRow (row_of data)]
    /\ sheet st' = if append_row w (sheet st) (row_of data)
                   then sheet st ++ [row_of data] else sheet st.
Proof.
  unfold media_path. cbv zeta.
  rewrite (bind_pure _ _ _ _ st (pure_record _)).
  destruct (makedirs w _); [|discriminate].
  rewrite (bind_pure _ _ _ _ _ (pure_record _)).
  destruct (http_get w _ _) as [[status content]|]; [|discriminate].
  destruct (negb (status =? 200)%Z); [discriminate|].
  rewrite (bind_pure _ _ _ _ _ (pure_record _)).
  destruct (save_file w _ _); [|discriminate].
  match goal with
  | |- context [extract_media_text w ?e ?n ?p] =>
      destruct (pure_extract_media_text w e n p) as [x [tr Hx]]
  end.
  rewrite (bind_pure _ _ _ _ _ Hx). run_step.
  destruct (strip x) as [|c t]; [discriminate|].
  destruct (_ || _); [discriminate|].
  rewrite recover_and_persist_run. run_step.
  intros H. injection H as Hd <-. run_step. subst data.
  exists c, t.
  match goal with
  | |- exists pre, _ /\ ((((_ ++ ?a0) ++ ?a) ++ ?b) ++ _) ++ _ = _ /\ _ =>
      exists (a0 ++ a ++ b ++ tr)
  end.
  split; [reflexivity|]. split; [|reflexivity].
  rewrite <- !app_assoc. reflexivity.
Qed.

(** A success reply carries the record recovered from some non-empty
    text, and the run ends with the model call and the append of the
    record's row. *)
Lemma webhook_success (w : World) (req : Request) (st : Store)
      (data : pydict) :
  result (whatsapp_webhook w req) st = Reply (MsgSuccess data) ->
  exists c t pre,
    data = record_for (generate_content w (build_prompt (c :: t)))
    /\ calls_made (whatsapp_webhook w req) st
       = pre ++ [CallGenerate (build_prompt (c :: t));
                 CallAppendRow (row_of data)]
    /\ sheet (final (whatsapp_webhook w req) st)
       = if append_row w (sheet st) (row_of data)
         then sheet st ++ [row_of data] else sheet st.
Proof.
  unfold result, calls_made, final, whatsapp_webhook.
  destruct (method req); [discriminate|].
  destruct (0 <? NumMedia req)%Z.
  - destruct (media_path w req st) as [o st'] eqn:E. simpl. intros ->.
    destruct (media_path_success w req st st' data E) as [c [t [pre [Hd [Hc Hs]]]]].
    exists c, t, pre. rewrite Hc, Hs.
    rewrite skipn_app, skipn_all, Nat.sub_diag. auto.
  - rewrite text_path_run.
    destruct (10 <? length (strip (or_default (Body req) []))) eqn:Hlen;
      [|discriminate].
    destruct (has_keyword _); [|discriminate].
    destruct (or_default (Body req) []) as [|c t]; [discriminate Hlen|].
    run_step. intros H. injection H as Hd.
    exists c, t, []. rewrite Hd.
    rewrite skipn_app, skipn_all, Nat.sub_diag. auto.
Qed.


Lemma str_eqb_eq (a b : str) : str_eqb a b = true <-> a = b.
Proof.
  revert b. induction a as [|x a IH]; intros [|y b]; simpl;
    try (split; [discriminate | congruence]); [tauto|].
  rewrite andb_true_iff, Ascii.eqb_eq, IH.
  split; [intros [-> ->]; reflexivity | intros H; injection H; auto].
Qed.

Lemma dict_get_set_other (k k' : str) (v : json) (d : pydict) :
  k' <> k -> dict_get k' (dict_set k v d) = dict_get k' d.
Proof.
  intros Hne. induction d as [|[k0 v0] d IH]; simpl.
  - destruct (str_eqb k' k) eqn:E; [|reflexivity].
    apply str_eqb_eq in E. contradiction.
  - destruct (str_eqb k k0) eqn:E; simpl.
    + apply str_eqb_eq in E. subst k0.
      destruct (str_eqb k' k) eqn:E'; [|reflexivity].
      apply str_eqb_eq in E'. contradiction.
    + now rewrite IH.
Qed.

(** The row is a function of the five canonical lookups. *)
Lemma row_of_canonical (d d' : pydict) :
  (forall f, In f FIELDS -> dict_get f d = dict_get f d') ->
  row_of d = row_of d'.
Proof.
  intros H. unfold row_of, get_default.
  rewrite !H by (simpl; auto 10). reflexivity.
Qed.

Lemma with_append_row_media_text (f : list row -> row -> bool) (w : World)
      (ext name path : str) (st : Store) :
  extract_media_text (with_append_row f w) ext name path st
  = extract_media_text w ext name path st.
Proof.
  assert (Hocr : forall images text s,
             ocr_pages (with_append_row f w) images text s
             = ocr_pages w images text s).
  { induction images as [|img rest IH]; intros text s; [reflexivity|].
    cbn [ocr_pages]. unfold bind. run_step.
    change (image_to_string (with_append_row f w)) with (image_to_string w).
    destruct (image_to_string w img NoArgs); [apply IH | reflexivity]. }
  assert (Hpdf : forall s, extract_text_from_pdf (with_append_row f w) path s
                           = extract_text_from_pdf w path s).
  { intros s. unfold extract_text_from_pdf, pdf_to_images, bind, record, ret.
    change (pdf_read (with_append_row f w)) with (pdf_read w).
    change (convert_from_path (with_append_row f w))
      with (convert_from_path w).
    run_step. destruct (pdf_read w path) as [pages|]; [|reflexivity].
    destruct (_ <? 20); [|reflexivity]. run_step.
    destruct (convert_from_path w path) as [[|img rest]|]; run_step;
      try reflexivity.
    now rewrite Hocr. }
  unfold extract_media_text, bind. destruct (_ || _); [|reflexivity].
  now rewrite Hpdf.
Qed.

(** C4, as the code has it: on a text-only message whose body is longer
    than 10 characters after stripping and holds one of the keywords in
    lower case, the field recovery is run on the body and the row of the
    five canonical fields, in the fixed order, is handed to the row
    store, which holds it afterwards when it accepts it; on a body of at
    most 10 characters after stripping the generic instruction is the
    reply, no collaborator is called and the sheet is as before. *)
Theorem C4_text_path (w : World) (req : Request) (st : Store) (body : str) :
  method req = POST -> (NumMedia req <= 0)%Z -> Body req = Some body ->
  (10 < length (strip body) -> has_keyword body = true ->
   let data := result (extract_resume_info w body) st in
   result (whatsapp_webhook w req) st = Reply (MsgSuccess data)
   /\ calls_made (whatsapp_webhook w req) st
      = [CallGenerate (build_prompt body); CallAppendRow (row_of data)]
   /\ row_of data
      = [get_default (L "Full Name") NA data;
         get_default (L "Email") NA data;
         get_default (L "Phone Number") NA data;
         get_default (L "CGPA") NA data;
         get_default (L "BTech College Name") NA data]
   /\ (append_row w (sheet st) (row_of data) = true ->
       sheet (final (whatsapp_webhook w req) st) = sheet st ++ [row_of data]))
  /\ (length (strip body) <= 10 ->
      result (whatsapp_webhook w req) st = Reply MsgGeneric
      /\ calls_made (whatsapp_webhook w req) st = []
      /\ sheet (final (whatsapp_webhook w req) st) = sheet st).
Proof.
  intros Hm Hn Hb.
  assert (Hrun : whatsapp_webhook w req st = text_path w req st).
  { unfold whatsapp_webhook. rewrite Hm.
    apply Z.ltb_ge in Hn. now rewrite Hn. }
  unfold result, calls_made, final. rewrite Hrun, text_path_run, Hb.
  cbn [or_default]. split.
  - intros Hlen Hkey. apply Nat.ltb_lt in Hlen. rewrite Hlen, Hkey.
    destruct body as [|c t]; [discriminate Hlen|].
    rewrite (pure_extract_resume_info w c t st). run_step.
    rewrite skipn_app, skipn_all, Nat.sub_diag.
    repeat split. intros Hok. now rewrite Hok.
  - intros Hlen. apply Nat.ltb_ge in Hlen. rewrite Hlen. run_step.
    rewrite skipn_all. auto.
Qed.

Lemma C4_text_path_witness :
  let req := text_request (L "email: jane@x.com") in
  let w := answering jane_full in
  result (whatsapp_webhook w req) empty_store
  = Reply (MsgSuccess (result (extract_resume_info w (L "email: jane@x.com"))
                              empty_store))
  /\ sheet (final (whatsapp_webhook w req) empty_store)
     = [[JString (L "Jane Doe"); JString (L "jane@x.com");
         JString (L "9999999999"); JString (L "9.1");
         JString (L "XYZ Institute")]]
  /\ result (whatsapp_webhook w (text_request (L "hi"))) empty_store
     = Reply MsgGeneric
  /\ calls_made (whatsapp_webhook w (text_request (L "hi"))) empty_store = [].
Proof.
  cbv zeta.
  destruct (C4_text_path (answering jane_full)
                         (text_request (L "email: jane@x.com"))
                         empty_store (L "email: jane@x.com"))
    as [Hlong _]; [reflexivity | simpl; lia | reflexivity |].
  destruct Hlong as [Hr [_ [_ Hs]]];
    [vm_compute; lia | vm_compute; reflexivity |].
  destruct (C4_text_path (answering jane_full) (text_request (L "hi"))
                         empty_store (L "hi"))
    as [_ Hshort]; [reflexivity | simpl; lia | reflexivity |].
  destruct Hshort as [Hg [Hc _]]; [vm_compute; lia|].
  split; [exact Hr|]. split; [|split; [exact Hg | exact Hc]].
  rewrite Hs; [vm_compute; reflexivity | reflexivity].
Defined.

(** C4 as stated fails: a body of exactly 10 characters after stripping
    that holds a keyword gets the generic instruction and nothing is
    handed to the row store; and with a row store that rejects the
    append, a longer body leaves no row behind. *)
Lemma C4_counterexample :
  (length (strip (L "email: abc")) = 10
   /\ has_keyword (L "email: abc") = true
   /\ result (whatsapp_webhook (answering jane_full)
                               (text_request (L "email: abc"))) empty_store
      = Reply MsgGeneric
   /\ calls_made (whatsapp_webhook (answering jane_full)
                                   (text_request (L "email: abc")))
                 empty_store = [])
  /\ (10 <= length (strip (L "email: jane@x.com"))
      /\ has_keyword (L "email: jane@x.com") = true
      /\ sheet (final (whatsapp_webhook
                         (with_append_row (fun _ _ => false)
                                          (answering jane_full))
                         (text_request (L "email: jane@x.com")))
                      empty_store) = []).
Proof.
  repeat split; try (vm_compute; reflexivity). vm_compute. lia.
Qed.

(** C5: the reply of the handler does not depend on what the row store
    does with the append; when the append fails after the fields were
    recovered, on the media path as on the text path, the reply is the
    success reply with the recovered record and the sheet is as
    before. *)
Theorem C5_persistence_failure_keeps_reply (w : World) (req : Request)
        (st : Store) :
  (forall f,
      result (whatsapp_webhook (with_append_row f w) req) st
      = result (whatsapp_webhook w req) st)
  /\ (forall data,
         result (whatsapp_webhook w req) st = Reply (MsgSuccess data) ->
         let w' := with_append_row (fun _ _ => false) w in
         result (whatsapp_webhook w' req) st = Reply (MsgSuccess data)
         /\ sheet (final (whatsapp_webhook w' req) st) = sheet st
         /\ exists pre,
             calls_made (whatsapp_webhook w' req) st
             = pre ++ [CallAppendRow (row_of data)]).
Proof.
  assert (Hrep : forall f,
             result (whatsapp_webhook (with_append_row f w) req) st
             = result (whatsapp_webhook w req) st).
  { intros f. unfold result, whatsapp_webhook.
    destruct (method req); [reflexivity|].
    destruct (0 <? NumMedia req)%Z.
    - unfold media_path. cbv zeta.
      change (makedirs (with_append_row f w)) with (makedirs w).
      change (http_get (with_append_row f w)) with (http_get w).
      change (save_file (with_append_row f w)) with (save_file w).
      change (clock (with_append_row f w)) with (clock w).
      change (TWILIO_ACCOUNT_SID (with_append_row f w))
        with (TWILIO_ACCOUNT_SID w).
      change (TWILIO_AUTH_TOKEN (with_append_row f w))
        with (TWILIO_AUTH_TOKEN w).
      rewrite !(bind_pure _ _ _ _ st (pure_record _)).
      destruct (makedirs w _); [|reflexivity].
      rewrite !(bind_pure _ _ _ _ _ (pure_record _)).
      destruct (http_get w _ _) as [[status content]|]; [|reflexivity].
      destruct (negb (status =? 200)%Z); [reflexivity|].
      rewrite !(bind_pure _ _ _ _ _ (pure_record _)).
      destruct (save_file w _ _); [|reflexivity].
      match goal with
      | |- context [extract_media_text w ?e ?n ?p] =>
          destruct (pure_extract_media_text w e n p) as [x [tr Hx]];
          assert (Hx' : pure_trace
                          (extract_media_text (with_append_row f w) e n p)
                          (strip x) tr)
            by (intros s; rewrite with_append_row_media_text; apply Hx)
      end.
      rewrite (bind_pure _ _ _ _ _ Hx), (bind_pure _ _ _ _ _ Hx').
      destruct (strip x) as [|c t]; [reflexivity|].
      destruct (_ || _); [reflexivity|].
      rewrite !recover_and_persist_run. run_step.
      change (generate_content (with_append_row f w))
        with (generate_content w).
      reflexivity.
    - rewrite !text_path_run.
      destruct (10 <? _); [|reflexivity].
      destruct (has_keyword _); reflexivity. }
  split; [exact Hrep|].
  intros data Hd w'. split; [unfold w'; now rewrite Hrep|].
  assert (Hd' : result (whatsapp_webhook w' req) st = Reply (MsgSuccess data))
    by (unfold w'; now rewrite Hrep).
  destruct (webhook_success w' req st data Hd') as [c [t [pre [_ [Hc Hs]]]]].
  split; [exact Hs|].
  exists (pre ++ [CallGenerate (build_prompt (c :: t))]).
  rewrite Hc, <- app_assoc. reflexivity.
Qed.

Lemma C5_persistence_failure_keeps_reply_witness :
  let fails := with_append_row (fun _ _ => false) in
  let text_req := text_request (L "email: jane@x.com") in
  let media_req := media_request (L "https://media/1") (L "application/pdf") in
  let data := [(L "Full Name", JString (L "Jane Doe"))] in
  (result (whatsapp_webhook (fails (answering jane_only)) text_req)
          empty_store = Reply (MsgSuccess data)
   /\ sheet (final (whatsapp_webhook (fails (answering jane_only)) text_req)
                   empty_store) = [])
  /\ (result (whatsapp_webhook (fails (pdf_upload jane_only)) media_req)
             empty_store = Reply (MsgSuccess data)
      /\ sheet (final (whatsapp_webhook (fails (pdf_upload jane_only))
                                        media_req) empty_store) = []).
Proof.
  cbv zeta. split.
  - destruct (C5_persistence_failure_keeps_reply
                (answering jane_only) (text_request (L "email: jane@x.com"))
                empty_store) as [_ Hfail].
    destruct (Hfail [(L "Full Name", JString (L "Jane Doe"))])
      as [Hr [Hs _]]; [vm_compute; reflexivity|].
    split; [exact Hr | exact Hs].
  - destruct (C5_persistence_failure_keeps_reply
                (pdf_upload jane_only)
                (media_request (L "https://media/1") (L "application/pdf"))
                empty_store) as [_ Hfail].
    destruct (Hfail [(L "Full Name", JString (L "Jane Doe"))])
      as [Hr [Hs _]]; [vm_compute; reflexivity|].
    split; [exact Hr | exact Hs].
Defined.

(** C10: a parsed mapping that has a key is returned with all its keys,
    canonical or not; the success reply carries that record; the row
    handed to the row store is built from it and is the only row that
    can reach the sheet; and the row reads the five canonical keys only,
    so that a key outside them changes nothing in it. *)
Theorem C10_extra_keys_pass_to_reply_not_row :
  (forall w text st response d,
      text <> [] -> generate_content w (build_prompt text) = inr response ->
      extract_json_from_response response = Some d -> d <> [] ->
      result (extract_resume_info w text) st = d)
  /\ (forall w req st data,
         result (whatsapp_webhook w req) st = Reply (MsgSuccess data) ->
         (exists text, text <> []
                       /\ forall st0,
                         result (extract_resume_info w text) st0 = data)
         /\ (exists pre, calls_made (whatsapp_webhook w req) st
                         = pre ++ [CallAppendRow (row_of data)])
         /\ (sheet (final (whatsapp_webhook w req) st) = sheet st
             \/ sheet (final (whatsapp_webhook w req) st)
                = sheet st ++ [row_of data]))
  /\ (forall data,
         row_of data = map (fun f => get_default f NA data) FIELDS)
  /\ (forall data data',
         (forall f, In f FIELDS -> dict_get f data = dict_get f data') ->
         row_of data = row_of data')
  /\ (forall k v data,
         ~ In k FIELDS -> row_of (dict_set k v data) = row_of data).
Proof.
  split; [exact parsed_record_returned|].
  split; [|split; [reflexivity|split; [exact row_of_canonical|]]].
  - intros w req st data H.
    destruct (webhook_success w req st data H) as [c [t [pre [Hd [Hc Hs]]]]].
    split; [|split].
    + exists (c :: t). split; [discriminate|]. intros st0.
      rewrite (pure_result _ _ _ st0 (pure_extract_resume_info w c t)).
      now symmetry.
    + exists (pre ++ [CallGenerate (build_prompt (c :: t))]).
      rewrite Hc, <- app_assoc. reflexivity.
    + rewrite Hs. destruct (append_row w _ _); auto.
  - intros k v data Hk. apply row_of_canonical. intros f Hf.
    apply dict_get_set_other. intros ->. contradiction.
Qed.

Lemma C10_extra_keys_pass_to_reply_not_row_witness :
  let data := [(L "Full Name", JString (L "Jane Doe"));
               (L "Skills", JArray [JString (L "Rocq");
                                    JString (L "Python")])] in
  let text_run := whatsapp_webhook (answering jane_extra)
                    (text_request (L "email: jane@x.com")) in
  let media_run := whatsapp_webhook (pdf_upload jane_extra)
                     (media_request (L "https://media/1")
                                    (L "application/pdf")) in
  result (extract_resume_info (answering jane_extra) resume_text)
         empty_store = data
  /\ (result text_run empty_store = Reply (MsgSuccess data)
      /\ sheet (final text_run empty_store)
         = [[JString (L "Jane Doe"); NA; NA; NA; NA]])
  /\ (result media_run empty_store = Reply (MsgSuccess data)
      /\ sheet (final media_run empty_store)
         = [[JString (L "Jane Doe"); NA; NA; NA; NA]]).
Proof.
  cbv zeta.
  destruct C10_extra_keys_pass_to_reply_not_row as [Hrec [Hweb _]].
  split; [|split].
  - apply (Hrec (answering jane_extra) resume_text empty_store jane_extra);
      [discriminate | reflexivity | vm_compute; reflexivity | discriminate].
  - assert (H : result (whatsapp_webhook (answering jane_extra)
                          (text_request (L "email: jane@x.com"))) empty_store
                = Reply (MsgSuccess
                           [(L "Full Name", JString (L "Jane Doe"));
                            (L "Skills", JArray [JString (L "Rocq");
                                                 JString (L "Python")])]))
      by (vm_compute; reflexivity).
    split; [exact H|].
    destruct (Hweb _ _ _ _ H) as [_ [_ [Hs | Hs]]];
      [vm_compute in Hs; discriminate Hs | rewrite Hs; reflexivity].
  - assert (H : result (whatsapp_webhook (pdf_upload jane_extra)
                          (media_request (L "https://media/1")
                                         (L "application/pdf"))) empty_store
                = Reply (MsgSuccess
                           [(L "Full Name", JString (L "Jane Doe"));
                            (L "Skills", JArray [JString (L "Rocq");
                                                 JString (L "Python")])]))
      by (vm_compute; reflexivity).
    split; [exact H|].
    destruct (Hweb _ _ _ _ H) as [_ [_ [Hs | Hs]]];
      [vm_compute in Hs; discriminate Hs | rewrite Hs; reflexivity].
Defined.

End Intake.

(** * Further properties *)

(** ** More about the matcher *)

Section MatcherShape.

(** What is left after a match is a suffix of the text. *)
Lemma star_run_suffix (step : str -> list str) :
  (forall s t, In t (step s) -> exists a, s = a ++ t) ->
  forall n s t, In t (star_run step n s) -> exists a, s = a ++ t.
Proof.
  intros Hstep. induction n as [|n IH]; intros s t H.
  - destruct H as [<-|[]]. now exists [].
  - rewrite star_run_S in H.
    apply in_app_or in H as [H|[<-|[]]]; [|now exists []].
    apply in_flat_map in H as [u [Hu Ht]].
    apply filter_In in Hu as [Hu _].
    destruct (Hstep _ _ Hu) as [a ->]. destruct (IH _ _ Ht) as [b ->].
    exists (a ++ b). now rewrite app_assoc.
Qed.

Lemma matches_suffix (r : regex) (s t : str) :
  In t (matches r s) -> exists a, s = a ++ t.
Proof.
  revert s t. induction r as [p|a IHa b IHb|a IHa|a IHa|]; intros s t H.
  - destruct s as [|c u]; [contradiction|]. rewrite matches_chr in H.
    destruct (p c); [|contradiction]. destruct H as [<-|[]]. now exists [c].
  - cbn [matches] in H. apply in_flat_map in H as [u [Hu Ht]].
    destruct (IHa _ _ Hu) as [x ->]. destruct (IHb _ _ Ht) as [y ->].
    exists (x ++ y). now rewrite app_assoc.
  - cbn [matches] in H. apply in_app_or in H as [H|[<-|[]]];
      [now apply IHa | now exists []].
  - cbn [matches] in H. exact (star_run_suffix _ IHa _ _ _ H).
  - exists []. destruct s as [|c [|d u]]; cbn [matches] in H.
    + destruct H as [<-|[]]. reflexivity.
    + destruct (Ascii.eqb c nl); [|contradiction].
      destruct H as [<-|[]]. reflexivity.
    + contradiction.
Qed.

(** A sequence cannot match where its second part matches no suffix. *)
Lemma matches_seq_dead (a b : regex) (s : str) :
  (forall x t, s = x ++ t -> matches b t = []) -> matches (Seq a b) s = [].
Proof.
  intros H. cbn [matches]. apply flat_map_nil. intros t Ht.
  destruct (matches_suffix _ _ _ Ht) as [x Hx]. exact (H x t Hx).
Qed.

Lemma matches_chr_absent (c : ascii) (s : str) :
  ~ In c s -> matches (Chr (Ascii.eqb c)) s = [].
Proof.
  destruct s as [|x t]; [reflexivity|]. intros H. rewrite matches_chr.
  destruct (Ascii.eqb c x) eqn:E; [|reflexivity].
  apply Ascii.eqb_eq in E. subst x. simpl in H. tauto.
Qed.

Lemma not_in_suffix (c : ascii) (x t : str) : ~ In c (x ++ t) -> ~ In c t.
Proof. intros H Ht. apply H, in_or_app. now right. Qed.

(** What a starred character class takes satisfies the class. *)
Lemma star_chr_taken (p : ascii -> bool) (n : nat) (s t : str) :
  In t (star_run (matches (Chr p)) n s) ->
  exists a, s = a ++ t /\ forallb p a = true.
Proof.
  revert s. induction n as [|n IH]; intros s H.
  - destruct H as [<-|[]]. exists []. auto.
  - rewrite star_run_S in H.
    apply in_app_or in H as [H|[<-|[]]]; [|exists []; auto].
    apply in_flat_map in H as [u [Hu Ht]].
    apply filter_In in Hu as [Hu _].
    destruct s as [|c s]; [contradiction|]. rewrite matches_chr in Hu.
    destruct (p c) eqn:Hc; [|contradiction].
    destruct Hu as [<-|[]].
    destruct (IH _ Ht) as [a [Ha Hs]]. exists (c :: a). simpl.
    rewrite Hc, Hs. split; [congruence | reflexivity].
Qed.

Lemma plus_chr_taken (p : ascii -> bool) (s t : str) :
  In t (matches (Plus (Chr p)) s) ->
  exists a, s = a ++ t /\ a <> [] /\ forallb p a = true.
Proof.
  unfold Plus. cbn [matches]. intros H.
  apply in_flat_map in H as [u [Hu Ht]].
  destruct s as [|c s]; [contradiction|].
  destruct (p c) eqn:Hc; [|contradiction]. destruct Hu as [<-|[]].
  destruct (star_chr_taken _ _ _ _ Ht) as [a [Ha Hs]].
  exists (c :: a). simpl. rewrite Hc, Hs.
  repeat split; [congruence | discriminate].
Qed.

Lemma first_some_some {A B} (f : A -> option B) (l : list A) (y : B) :
  first_some f l = Some y -> exists x, In x l /\ f x = Some y.
Proof.
  induction l as [|x l IH]; simpl; [discriminate|].
  destruct (f x) eqn:E.
  - intros H. injection H as <-. eauto.
  - intros H. destruct (IH H) as [z [Hz Hf]]. eauto.
Qed.

Lemma match_group_value (pre post : regex) (s g : str) :
  match_group pre field_grp post s = Some g ->
  g <> [] /\ forallb value_char g = true.
Proof.
  unfold match_group. intros E.
  apply first_some_some in E as [s1 [_ E]].
  apply first_some_some in E as [s2 [H2 E]].
  destruct (matches post s2); [discriminate|]. injection E as <-.
  destruct (plus_chr_taken _ _ _ H2) as [a [-> [Ha Hp]]].
  rewrite length_app, Nat.add_sub, firstn_app, Nat.sub_diag, firstn_all.
  cbn [firstn]. rewrite app_nil_r. split; [exact Ha | exact Hp].
Qed.

(** The text of the group of a field pattern is not empty and is made of
    the characters the group accepts. *)
Lemma search_field_value (field cleaned_text g : str) :
  search_field field cleaned_text = Some g ->
  g <> [] /\ forallb value_char g = true.
Proof.
  unfold search_field. induction cleaned_text as [|c t IH]; cbn [search_group].
  - destruct (match_group _ _ _ []) as [g'|] eqn:E; [|discriminate].
    intros H. injection H as ->. exact (match_group_value _ _ _ _ E).
  - destruct (match_group _ _ _ (c :: t)) as [g'|] eqn:E; [|exact IH].
    intros H. injection H as ->. exact (match_group_value _ _ _ _ E).
Qed.

End MatcherShape.

(** ** More about the parsing chain *)

Section ChainShape.

Lemma absent_by_test (c : ascii) (s : str) :
  existsb (Ascii.eqb c) s = false -> ~ In c s.
Proof.
  intros H Hin. assert (E : existsb (Ascii.eqb c) s = true).
  { apply existsb_exists. exists c. split; [exact Hin|].
    apply Ascii.eqb_refl. }
  congruence.
Qed.

Lemma endswith_not_in (c : ascii) (s : str) :
  ~ In c s -> endswith [c] s = false.
Proof.
  intros H. unfold endswith. cbn [rev app].
  apply startswith_not_in. intros Hr. apply H. now apply in_rev.
Qed.

Lemma looks_like_object_no_close (s : str) :
  ~ In "}"%char s -> looks_like_object s = false.
Proof.
  intros H. unfold looks_like_object. change (L "}") with ["}"%char].
  rewrite (endswith_not_in _ _ H). apply andb_false_r.
Qed.

Lemma json_pattern_needs_close (s : str) :
  ~ In "}"%char s -> match_len json_pattern s = None.
Proof.
  intros H. unfold match_len, json_pattern.
  rewrite matches_seq_dead; [reflexivity|]. intros x1 t1 ->.
  apply matches_seq_dead. intros x2 t2 ->.
  apply matches_seq_dead. intros x3 t3 ->.
  apply matches_chr_absent.
  now apply not_in_suffix, not_in_suffix, not_in_suffix in H.
Qed.

Lemma re_findall_no_close (s : str) :
  ~ In "}"%char s -> re_findall json_pattern s = [].
Proof.
  intros H. apply findall_scan_none. intros a b ->.
  apply json_pattern_needs_close. exact (not_in_suffix _ _ _ H).
Qed.

(** A response that lacks one of the two braces is left to the manual
    extraction. *)
Lemma extract_json_without_object (response : str) :
  ~ In "{"%char response \/ ~ In "}"%char response ->
  extract_json_from_response response =
  match manual_fields (remove_fences (strip response)) with
  | [] => None
  | result => Some result
  end.
Proof.
  intros [H|H]; unfold extract_json_from_response.
  - assert (H1 : ~ In "{"%char (strip response))
      by (intros X; apply H, strip_incl, X).
    assert (H2 : ~ In "{"%char (remove_fences (strip response)))
      by (intros X; apply H1, remove_fences_incl, X).
    rewrite (looks_like_object_no_brace _ H1).
    rewrite (looks_like_object_no_brace _ H2).
    now rewrite (re_findall_no_brace _ H2).
  - assert (H1 : ~ In "}"%char (strip response))
      by (intros X; apply H, strip_incl, X).
    assert (H2 : ~ In "}"%char (remove_fences (strip response)))
      by (intros X; apply H1, remove_fences_incl, X).
    rewrite (looks_like_object_no_close _ H1).
    rewrite (looks_like_object_no_close _ H2).
    now rewrite (re_findall_no_close _ H2).
Qed.

Lemma manual_fields_shape (cleaned_text : str) :
  manual_fields cleaned_text =
  flat_map (fun f => match search_field f cleaned_text with
                     | Some g => [(f, JString (strip g))]
                     | None => []
                     end) FIELDS.
Proof.
  unfold manual_fields, FIELDS. cbn [fold_left flat_map].
  destruct (search_field (L "Full Name") cleaned_text);
    destruct (search_field (L "Email") cleaned_text);
    destruct (search_field (L "Phone Number") cleaned_text);
    destruct (search_field (L "CGPA") cleaned_text);
    destruct (search_field (L "BTech College Name") cleaned_text);
    reflexivity.
Qed.

Lemma manual_fields_order (cleaned_text : str) :
  keys (manual_fields cleaned_text) =
  filter (fun f => existsb (str_eqb f) (keys (manual_fields cleaned_text)))
         FIELDS.
Proof.
  rewrite manual_fields_shape. unfold FIELDS. cbn [flat_map].
  destruct (search_field (L "Full Name") cleaned_text);
    destruct (search_field (L "Email") cleaned_text);
    destruct (search_field (L "Phone Number") cleaned_text);
    destruct (search_field (L "CGPA") cleaned_text);
    destruct (search_field (L "BTech College Name") cleaned_text);
    reflexivity.
Qed.

Lemma strip_value (g : str) :
  forallb value_char g = true ->
  trimmed (strip g) /\ forallb value_char (strip g) = true.
Proof.
  intros H. split; [apply strip_trimmed|].
  apply forallb_forall. intros c Hc.
  exact (proj1 (forallb_forall _ _) H c (strip_incl _ _ Hc)).
Qed.

(** X1: white space around the model's answer never changes what the
    parsing chain returns. *)
Theorem X1_surrounding_space_ignored (a response b : str) :
  forallb is_space a = true -> forallb is_space b = true ->
  extract_json_from_response (a ++ response ++ b)
  = extract_json_from_response response.
Proof.
  intros Ha Hb.
  assert (E : strip (a ++ response ++ b) = strip response).
  { destruct (strip_split response) as [a' [b' [E [Ha' Hb']]]].
    rewrite E at 1.
    replace (a ++ (a' ++ strip response ++ b') ++ b)
      with ((a ++ a') ++ strip response ++ (b' ++ b))
      by (rewrite <- !app_assoc; reflexivity).
    apply strip_wrap; [apply strip_trimmed | |];
      rewrite forallb_app; apply andb_true_iff; auto. }
  unfold extract_json_from_response. now rewrite E.
Qed.

Lemma X1_surrounding_space_ignored_witness :
  extract_json_from_response ([nl] ++ jane_only ++ L "  " ++ [nl])
  = extract_json_from_response jane_only.
Proof.
  apply (X1_surrounding_space_ignored [nl] jane_only (L "  " ++ [nl]));
    reflexivity.
Defined.

(** X2: when the answer lacks an opening or a closing brace, whatever
    the parsing chain returns comes from the field patterns: a mapping
    that is not empty, whose keys are canonical field names in the
    canonical order, each once, and whose values are strings without
    white space at either end and without double quote, comma or line
    feed. *)
Theorem X2_manual_mapping_shape (response : str) (d : pydict) :
  ~ In "{"%char response \/ ~ In "}"%char response ->
  extract_json_from_response response = Some d ->
  d <> []
  /\ keys d = filter (fun f => existsb (str_eqb f) (keys d)) FIELDS
  /\ forall k v, In (k, v) d ->
       In k FIELDS
       /\ exists g, v = JString g /\ trimmed g
                    /\ forallb value_char g = true.
Proof.
  intros Hb H. rewrite (extract_json_without_object _ Hb) in H.
  assert (Hd : d = manual_fields (remove_fences (strip response)))
    by (destruct (manual_fields _); [discriminate | congruence]).
  split; [destruct (manual_fields _); [discriminate | congruence]|].
  subst d. split; [apply manual_fields_order|].
  intros k v Hin. rewrite manual_fields_shape in Hin.
  apply in_flat_map in Hin as [f [Hf Hin]].
  destruct (search_field f _) as [g|] eqn:E; [|contradiction].
  destruct Hin as [Hin|[]]. injection Hin as <- <-.
  split; [exact Hf|]. exists (strip g).
  destruct (search_field_value _ _ _ E) as [_ Hg].
  destruct (strip_value g Hg). auto.
Qed.

Lemma X2_manual_mapping_shape_witness :
  let response := L "Name unknown. CGPA : 9.1 , email: ' jane@x.com" in
  extract_json_from_response response
  = Some [(L "Email", JString (L "jane@x.com"));
          (L "CGPA", JString (L "9.1"))]
  /\ keys [(L "Email", JString (L "jane@x.com"));
           (L "CGPA", JString (L "9.1"))]
     = [L "Email"; L "CGPA"].
Proof.
  cbv zeta.
  assert (H : extract_json_from_response
                (L "Name unknown. CGPA : 9.1 , email: ' jane@x.com")
              = Some [(L "Email", JString (L "jane@x.com"));
                      (L "CGPA", JString (L "9.1"))])
    by (vm_compute; reflexivity).
  split; [exact H|].
  assert (Hb : ~ In "{"%char
                    (L "Name unknown. CGPA : 9.1 , email: ' jane@x.com"))
    by (apply absent_by_test; reflexivity).
  destruct (X2_manual_mapping_shape _ _ (or_introl Hb) H) as [_ [Hk _]].
  rewrite Hk. reflexivity.
Defined.

Lemma field_rest_needs_colon (X : regex) (t : str) :
  ~ In ":"%char t ->
  matches (Seq (Opt quote) (Seq ws (Seq (Chr (Ascii.eqb ":")) X))) t = [].
Proof.
  intros H. apply matches_seq_dead. intros x1 t1 ->.
  apply matches_seq_dead. intros x2 t2 ->.
  change (matches (Seq (Chr (Ascii.eqb ":")) X) t2)
    with (flat_map (matches X) (matches (Chr (Ascii.eqb ":")) t2)).
  rewrite matches_chr_absent; [reflexivity|].
  now apply not_in_suffix, not_in_suffix in H.
Qed.

Lemma lit_i_needs_colon (X : regex) (f t : str) :
  ~ In ":"%char t ->
  matches (lit_i f (Seq (Opt quote)
                        (Seq ws (Seq (Chr (Ascii.eqb ":")) X)))) t = [].
Proof.
  revert t. induction f as [|c f IH]; intros t H; cbn [lit_i].
  - now apply field_rest_needs_colon.
  - apply matches_seq_dead. intros x u ->. apply IH.
    exact (not_in_suffix _ _ _ H).
Qed.

(** No field pattern matches in a text without a colon. *)
Lemma search_field_needs_colon (field cleaned_text : str) :
  ~ In ":"%char cleaned_text -> search_field field cleaned_text = None.
Proof.
  unfold search_field.
  assert (Hm : forall s, ~ In ":"%char s ->
                         match_group (field_pre field) field_grp field_post s
                         = None).
  { intros s Hs. unfold match_group, field_pre.
    rewrite matches_seq_dead; [reflexivity|]. intros x t ->.
    apply lit_i_needs_colon. exact (not_in_suffix _ _ _ Hs). }
  induction cleaned_text as [|c t IH]; intros H; cbn [search_group].
  - now rewrite Hm.
  - rewrite (Hm _ H). apply IH. exact (not_in_suffix _ [c] t H).
Qed.

(** X3: an answer without a colon that lacks an opening or a closing
    brace cannot be parsed at all: the chain gives no mapping and
    [extract_resume_info] returns the all-N/A record with the first 500
    characters of the answer. *)
Theorem X3_no_colon_no_mapping (w : World) (text : str) (st : Store)
        (response : str) :
  text <> [] ->
  generate_content w (build_prompt text) = inr response ->
  ~ In "{"%char response \/ ~ In "}"%char response ->
  ~ In ":"%char response ->
  extract_json_from_response response = None
  /\ result (extract_resume_info w text) st = fallback_record response.
Proof.
  intros Ht Hg Hb Hc.
  assert (Hp : extract_json_from_response response = None).
  { rewrite (extract_json_without_object _ Hb).
    rewrite manual_fields_none; [reflexivity|]. intros f _.
    apply search_field_needs_colon. intros X.
    apply Hc, strip_incl, remove_fences_incl, X. }
  split; [exact Hp|].
  exact (unparsed_record_is_fallback w text st response Ht Hg (or_introl Hp)).
Qed.

Lemma X3_no_colon_no_mapping_witness :
  result (extract_resume_info
            (answering (L "Sorry, I cannot read this {resume"))
            resume_text) empty_store
  = fallback_record (L "Sorry, I cannot read this {resume").
Proof.
  apply (X3_no_colon_no_mapping
           (answering (L "Sorry, I cannot read this {resume"))
           resume_text empty_store (L "Sorry, I cannot read this {resume"));
    [discriminate | reflexivity
     | right; apply absent_by_test; reflexivity
     | apply absent_by_test; reflexivity].
Defined.

End ChainShape.

(** ** More about the extractors and the field recovery *)

Section ExtractorShape.

Lemma reads_ret {A} (v : A) :
  pure_trace (ret v) v [] /\ forallb read_call [] = true.
Proof. split; [apply pure_ret | reflexivity]. Qed.

Lemma pdf_calls_ocr_pages (w : World) (images : list image) (text : str) :
  exists v tr, pure_trace (ocr_pages w images text) v tr
               /\ forallb pdf_call tr = true.
Proof.
  revert text. induction images as [|img rest IH]; intros text; simpl.
  - eexists _, _. split; [apply pure_ret | reflexivity].
  - destruct (image_to_string w img NoArgs) as [t|].
    + destruct (IH (text ++ t)) as [v [tr [H Hr]]].
      exists v, ([CallOcr img NoArgs] ++ tr). split.
      * eapply pure_bind; [apply pure_record | exact H].
      * exact Hr.
    + exists None, ([CallOcr img NoArgs] ++ []). split.
      * eapply pure_bind; [apply pure_record | apply pure_ret].
      * reflexivity.
Qed.

Lemma pdf_calls_extract_text_from_pdf (w : World) (path : str) :
  exists x tr, pure_trace (extract_text_from_pdf w path) (strip x) tr
               /\ forallb pdf_call tr = true.
Proof.
  unfold extract_text_from_pdf.
  destruct (pdf_read w path) as [pages|].
  - destruct (length (strip (List.concat (map page_text pages))) <? 20).
    + pose proof (pure_pdf_to_images w path) as Himg.
      destruct (convert_from_path w path) as [[|img rest]|].
      * eexists _, ([CallPdfRead path] ++ [CallRasterize path] ++ []).
        split; [|reflexivity].
        eapply pure_bind; [apply pure_record|].
        eapply pure_bind; [exact Himg | apply pure_ret].
      * destruct (pdf_calls_ocr_pages w (img :: rest)
                    (List.concat (map page_text pages)))
          as [[t|] [tr [H Hr]]].
        -- exists t, ([CallPdfRead path] ++ [CallRasterize path] ++ tr ++ []).
           split; [|cbn [forallb app pdf_call andb];
                    now rewrite app_nil_r].
           eapply pure_bind; [apply pure_record|].
           eapply pure_bind; [exact Himg|].
           eapply pure_bind; [exact H | apply pure_ret].
        -- exists [], ([CallPdfRead path] ++ [CallRasterize path] ++ tr ++ []).
           split; [|cbn [forallb app pdf_call andb];
                    now rewrite app_nil_r].
           eapply pure_bind; [apply pure_record|].
           eapply pure_bind; [exact Himg|].
           eapply pure_bind; [exact H | apply pure_ret].
      * eexists _, ([CallPdfRead path] ++ [CallRasterize path] ++ []).
        split; [|reflexivity].
        eapply pure_bind; [apply pure_record|].
        eapply pure_bind; [exact Himg | apply pure_ret].
    + eexists _, ([CallPdfRead path] ++ []). split; [|reflexivity].
      eapply pure_bind; [apply pure_record | apply pure_ret].
  - exists [], ([CallPdfRead path] ++ []). split; [|reflexivity].
    eapply pure_bind; [apply pure_record | apply pure_ret].
Qed.

Lemma pdf_call_reads (tr : list call) :
  forallb pdf_call tr = true -> forallb read_call tr = true.
Proof.
  intros H. apply forallb_forall. intros c Hc.
  apply (proj1 (forallb_forall _ _) H) in Hc.
  destruct c as [| | |img [| |]| | | | |]; try discriminate Hc; reflexivity.
Qed.

Lemma reads_extract_text_from_pdf (w : World) (path : str) :
  exists x tr, pure_trace (extract_text_from_pdf w path) (strip x) tr
               /\ forallb read_call tr = true.
Proof.
  destruct (pdf_calls_extract_text_from_pdf w path) as [x [tr [H Hr]]].
  exists x, tr. split; [exact H | exact (pdf_call_reads _ Hr)].
Qed.

Lemma reads_extract_text_from_image (w : World) (path : str) :
  exists x tr, pure_trace (extract_text_from_image w path) (strip x) tr
               /\ forallb read_call tr = true /\ length tr <= 3.
Proof.
  unfold extract_text_from_image.
  destruct (image_open w path) as [img|].
  - destruct (image_to_string w img (Lang (L "eng"))) as [text|].
    + destruct (length (strip text) <? 10).
      * destruct (image_to_string w img (Config custom_config)) as [t|].
        -- exists t, ([CallImageOpen path] ++ [CallOcr img (Lang (L "eng"))]
                        ++ [CallOcr img (Config custom_config)] ++ []).
           split; [|split; [reflexivity | simpl; lia]].
           repeat (eapply pure_bind; [apply pure_record|]). apply pure_ret.
        -- exists [], ([CallImageOpen path] ++ [CallOcr img (Lang (L "eng"))]
                         ++ [CallOcr img (Config custom_config)] ++ []).
           split; [|split; [reflexivity | simpl; lia]].
           repeat (eapply pure_bind; [apply pure_record|]). apply pure_ret.
      * exists text, ([CallImageOpen path] ++ [CallOcr img (Lang (L "eng"))]
                        ++ []).
        split; [|split; [reflexivity | simpl; lia]].
        repeat (eapply pure_bind; [apply pure_record|]). apply pure_ret.
    + exists [], ([CallImageOpen path] ++ [CallOcr img (Lang (L "eng"))]
                    ++ []).
      split; [|split; [reflexivity | simpl; lia]].
      repeat (eapply pure_bind; [apply pure_record|]). apply pure_ret.
  - exists [], ([CallImageOpen path] ++ []).
    split; [|split; [reflexivity | simpl; lia]].
    repeat (eapply pure_bind; [apply pure_record|]). apply pure_ret.
Qed.

Lemma reads_extract_media_text (w : World) (ext name path : str) :
  exists x tr, pure_trace (extract_media_text w ext name path) (strip x) tr
               /\ forallb read_call tr = true.
Proof.
  unfold extract_media_text.
  destruct (reads_extract_text_from_pdf w path) as [x [tr [H Hr]]].
  destruct (reads_extract_text_from_image w path) as [y [tr' [H' [Hr' _]]]].
  destruct (_ || _).
  - destruct (length (strip (strip x)) <? 50) eqn:E.
    + destruct (length (strip (strip x)) <? length (strip (strip y))) eqn:E'.
      * exists y, (tr ++ tr' ++ []). split.
        -- eapply pure_bind; [exact H|]. rewrite E.
           eapply pure_bind; [exact H'|]. rewrite E'. apply pure_ret.
        -- rewrite app_nil_r, forallb_app, Hr, Hr'. reflexivity.
      * exists x, (tr ++ tr' ++ []). split.
        -- eapply pure_bind; [exact H|]. rewrite E.
           eapply pure_bind; [exact H'|]. rewrite E'. apply pure_ret.
        -- rewrite app_nil_r, forallb_app, Hr, Hr'. reflexivity.
    + exists x, (tr ++ []). split.
      * eapply pure_bind; [exact H|]. rewrite E. apply pure_ret.
      * now rewrite app_nil_r.
  - eauto.
Qed.

(** X4: [extract_resume_info] never returns an empty record, leaves the
    sheet as it is, and calls the model exactly once, with the prompt
    built from the text, unless the text is empty, in which case it
    calls nothing. *)
Theorem X4_one_model_call (w : World) (text : str) (st : Store) :
  result (extract_resume_info w text) st <> []
  /\ sheet (final (extract_resume_info w text) st) = sheet st
  /\ calls_made (extract_resume_info w text) st
     = match text with
       | [] => []
       | _ :: _ => [CallGenerate (build_prompt text)]
       end.
Proof.
  destruct text as [|c t].
  - assert (H : pure_trace (extract_resume_info w [])
                           [(L "error", JString (L "No text found in resume"))]
                           []) by apply pure_ret.
    rewrite (pure_result _ _ _ st H), (pure_sheet _ _ _ st H),
      (pure_calls _ _ _ st H).
    repeat split. discriminate.
  - pose proof (pure_extract_resume_info w c t) as H.
    rewrite (pure_result _ _ _ st H), (pure_sheet _ _ _ st H),
      (pure_calls _ _ _ st H).
    repeat split. unfold record_for.
    destruct (generate_content w _) as [e|r]; [discriminate|].
    destruct (extract_json_from_response r) as [[|p d]|]; discriminate.
Qed.

(** X5: when the PDF cannot be rasterized (the converter is missing or
    raises, or it returns no image) the text of the text layer is kept,
    however short, and no OCR call is made. *)
Theorem X5_no_raster_keeps_direct_text (w : World) (path : str) (st : Store)
        (pages : list (option str)) :
  pdf_read w path = Some pages ->
  convert_from_path w path = None \/ convert_from_path w path = Some [] ->
  result (extract_text_from_pdf w path) st
  = strip (List.concat (map page_text pages))
  /\ forall img args,
       ~ In (CallOcr img args) (calls_made (extract_text_from_pdf w path) st).
Proof.
  intros Hpdf Himg.
  assert (H : exists tr,
             pure_trace (extract_text_from_pdf w path)
                        (strip (List.concat (map page_text pages))) tr
             /\ (tr = [CallPdfRead path]
                 \/ tr = [CallPdfRead path; CallRasterize path])).
  { unfold extract_text_from_pdf. rewrite Hpdf.
    destruct (_ <? 20).
    - exists ([CallPdfRead path] ++ [CallRasterize path] ++ []).
      split; [|now right].
      eapply pure_bind; [apply pure_record|].
      eapply pure_bind; [apply pure_pdf_to_images|].
      destruct Himg as [-> | ->]; apply pure_ret.
    - exists ([CallPdfRead path] ++ []). split; [|now left].
      eapply pure_bind; [apply pure_record | apply pure_ret]. }
  destruct H as [tr [H Htr]].
  rewrite (pure_result _ _ _ st H), (pure_calls _ _ _ st H).
  split; [reflexivity|]. intros img args Hin.
  destruct Htr as [-> | ->]; simpl in Hin; intuition discriminate.
Qed.

Lemma X5_no_raster_keeps_direct_text_witness :
  let w := with_files (fun _ => Some [Some (L " abc "); None; Some (L "de")])
                      (fun _ => None) (fun _ => None) (fun _ _ => None)
                      offline in
  result (extract_text_from_pdf w (L "a.pdf")) empty_store = L "abc de".
Proof.
  cbv zeta.
  destruct (X5_no_raster_keeps_direct_text
              (with_files (fun _ => Some [Some (L " abc "); None;
                                          Some (L "de")])
                          (fun _ => None) (fun _ => None) (fun _ _ => None)
                          offline)
              (L "a.pdf") empty_store
              [Some (L " abc "); None; Some (L "de")] eq_refl
              (or_introl eq_refl)) as [H _].
  rewrite H. reflexivity.
Defined.

(** X6: the extractors only read the file: every call they make is a
    PDF read, a rasterization, an image open or an OCR call, the sheet
    is left as it is, and the image extractor makes at most three
    calls. *)
Theorem X6_extractors_only_read (w : World) (path : str) (st : Store) :
  (forallb read_call (calls_made (extract_text_from_pdf w path) st) = true
   /\ sheet (final (extract_text_from_pdf w path) st) = sheet st)
  /\ (forallb read_call (calls_made (extract_text_from_image w path) st)
      = true
      /\ length (calls_made (extract_text_from_image w path) st) <= 3
      /\ sheet (final (extract_text_from_image w path) st) = sheet st)
  /\ forall ext name,
       forallb read_call (calls_made (extract_media_text w ext name path) st)
       = true
       /\ sheet (final (extract_media_text w ext name path) st) = sheet st.
Proof.
  split; [|split].
  - destruct (reads_extract_text_from_pdf w path) as [x [tr [H Hr]]].
    now rewrite (pure_calls _ _ _ st H), (pure_sheet _ _ _ st H).
  - destruct (reads_extract_text_from_image w path) as [x [tr [H [Hr Hl]]]].
    now rewrite (pure_calls _ _ _ st H), (pure_sheet _ _ _ st H).
  - intros ext name.
    destruct (reads_extract_media_text w ext name path) as [x [tr [H Hr]]].
    now rewrite (pure_calls _ _ _ st H), (pure_sheet _ _ _ st H).
Qed.

End ExtractorShape.

(** ** More about content types, file names and keywords *)

Section NamesAndKeywords.

Lemma startswith_spec (p s : str) :
  startswith p s = true <-> exists t, s = p ++ t.
Proof.
  revert s. induction p as [|a p IH]; intros s; simpl.
  - split; [intros _; now exists s | reflexivity].
  - destruct s as [|b s].
    + split; [discriminate | intros [t Ht]; discriminate].
    + rewrite andb_true_iff, Ascii.eqb_eq, IH. split.
      * intros [-> [t ->]]. now exists t.
      * intros [t Ht]. injection Ht as -> ->. split; [reflexivity | now exists t].
Qed.

Lemma contains_app_right (p a s : str) :
  contains p s = true -> contains p (a ++ s) = true.
Proof.
  intros H. induction a as [|c a IH]; [exact H|].
  simpl. rewrite IH. apply orb_true_r.
Qed.

Lemma endswith_contains (p s : str) :
  endswith p s = true -> contains p s = true.
Proof.
  unfold endswith. intros H. apply startswith_spec in H as [t Ht].
  apply (f_equal (@rev ascii)) in Ht.
  rewrite rev_involutive, rev_app_distr, rev_involutive in Ht. subst s.
  apply contains_app_right.
  assert (E : startswith p p = true)
    by (apply startswith_spec; exists []; now rewrite app_nil_r).
  destruct p; simpl in *; [reflexivity | now rewrite E].
Qed.

Lemma lower_app (a b : str) : lower (a ++ b) = lower a ++ lower b.
Proof. apply map_app. Qed.

Lemma startswith_lower (p s : str) :
  startswith p s = true -> startswith (lower p) (lower s) = true.
Proof.
  intros H. apply startswith_spec in H as [t ->].
  apply startswith_spec. exists (lower t). apply lower_app.
Qed.

(** A text that holds [p] holds the lower case of [p] once it is put in
    lower case. *)
Lemma contains_lower (p s : str) :
  contains p s = true -> contains (lower p) (lower s) = true.
Proof.
  induction s as [|c s IH]; simpl.
  - rewrite orb_false_r. intros H. apply startswith_lower in H.
    simpl in H. now rewrite H.
  - intros H. apply orb_true_iff in H as [H|H].
    + apply startswith_lower in H. simpl in H. now rewrite H.
    + rewrite (IH H). apply orb_true_r.
Qed.

Lemma split_last_suffix (sep : ascii) (s : str) :
  exists a, s = a ++ split_last sep s.
Proof.
  induction s as [|c t [a IH]]; [now exists []|]. simpl.
  destruct (existsb (Ascii.eqb sep) t).
  - exists (c :: a). simpl. congruence.
  - destruct (Ascii.eqb c sep); [now exists [c] | now exists []].
Qed.

Lemma split_last_no_sep (sep : ascii) (s : str) :
  ~ In sep (split_last sep s).
Proof.
  induction s as [|c t IH]; simpl; [tauto|].
  destruct (existsb (Ascii.eqb sep) t) eqn:E; [exact IH|].
  assert (Ht : ~ In sep t) by (apply absent_by_test; exact E).
  destruct (Ascii.eqb c sep) eqn:Ec; [exact Ht|].
  apply Ascii.eqb_neq in Ec. simpl. intuition congruence.
Qed.

Lemma file_extension_no_slash (content_type : str) :
  ~ In "/"%char (file_extension_of content_type).
Proof.
  unfold file_extension_of.
  destruct (contains (L "pdf") _);
    [apply absent_by_test; reflexivity|].
  destruct (contains (L "png") _);
    [apply absent_by_test; reflexivity|].
  destruct (_ || _); [apply absent_by_test; reflexivity|].
  apply split_last_no_sep.
Qed.

Lemma str_of_Z_no_slash (z : Z) : ~ In "/"%char (str_of_Z z).
Proof.
  unfold str_of_Z, L.
  assert (Hu : forall d, ~ In "/"%char
                           (list_ascii_of_string (NilEmpty.string_of_uint d))).
  { induction d; simpl; intuition discriminate. }
  assert (Hz : forall d, ~ In "/"%char
                           (list_ascii_of_string (NilZero.string_of_uint d))).
  { intros d. destruct d; try apply Hu. simpl. intuition discriminate. }
  destruct (Z.to_int z) as [d|d]; simpl; [apply Hz|].
  intros [H|H]; [discriminate | exact (Hz d H)].
Qed.

Lemma startswith_app_long (p s t : str) :
  length p <= length s -> startswith p (s ++ t) = startswith p s.
Proof.
  revert s. induction p as [|a p IH]; intros s H; [reflexivity|].
  destruct s as [|b s]; [simpl in H; lia|]. simpl.
  rewrite IH by (simpl in H; lia). reflexivity.
Qed.

Lemma endswith_app_long (p x y : str) :
  length p <= length y -> endswith p (x ++ y) = endswith p y.
Proof.
  intros H. unfold endswith. rewrite rev_app_distr.
  apply startswith_app_long. now rewrite !length_rev.
Qed.

(** A file name ends in [.pdf] only if its extension ends in [pdf]. *)
Lemma endswith_dot_pdf (stem ext : str) :
  endswith (L ".pdf") (stem ++ L "." ++ ext) = true ->
  endswith (L "pdf") ext = true.
Proof.
  unfold endswith. rewrite !rev_app_distr.
  change (rev (L ".pdf")) with ["f"; "d"; "p"; "."]%char.
  change (rev (L "pdf")) with ["f"; "d"; "p"]%char.
  change (rev (L ".")) with ["."]%char.
  destruct (rev ext) as [|a [|b [|c r]]]; cbn [app startswith];
    rewrite ?andb_true_iff.
  - intros [H _]. discriminate H.
  - intros [_ [H _]]. discriminate H.
  - intros [_ [_ [H _]]]. discriminate H.
  - intros [Ha [Hb [Hc _]]]. now rewrite Ha, Hb, Hc.
Qed.

(** X7: a downloaded file is read as a PDF exactly when its declared
    content type holds [pdf] in any letter case: the test on the end of
    the file name adds nothing to the test on the extension. *)
Theorem X7_pdf_route (content_type : str) (timestamp : Z) :
  let file_extension := file_extension_of content_type in
  let file_name :=
    L "resume_" ++ str_of_Z timestamp ++ L "." ++ file_extension in
  str_eqb (lower file_extension) (L "pdf")
  || endswith (L ".pdf") (lower file_name)
  = contains (L "pdf") (lower content_type).
Proof.
  cbv zeta. unfold file_extension_of.
  destruct (contains (L "pdf") (lower content_type)) eqn:Hpdf;
    [reflexivity|].
  assert (Hname : forall ext,
             contains (L "pdf") (lower ext) = false ->
             str_eqb (lower ext) (L "pdf")
             || endswith (L ".pdf")
                         (lower (L "resume_" ++ str_of_Z timestamp
                                   ++ L "." ++ ext)) = false).
  { intros ext Hext. apply orb_false_iff. split.
    - destruct (str_eqb (lower ext) (L "pdf")) eqn:E; [|reflexivity].
      apply str_eqb_eq in E. rewrite E in Hext. discriminate Hext.
    - destruct (endswith _ _) eqn:E; [|reflexivity].
      rewrite app_assoc, !lower_app in E.
      change (lower (L ".")) with (L ".") in E.
      apply endswith_dot_pdf, endswith_contains in E. congruence. }
  destruct (contains (L "png") (lower content_type));
    [apply Hname; reflexivity|].
  destruct (contains (L "jpeg") (lower content_type)
            || contains (L "jpg") (lower content_type));
    [apply Hname; reflexivity|].
  apply Hname.
  destruct (split_last_suffix "/" content_type) as [a Ha].
  rewrite Ha, lower_app in Hpdf. exact (contains_suffix _ _ _ Hpdf).
Qed.

(** X8: the keyword test does not depend on letter case: a body that
    holds any spelling of a keyword is taken for a resume, and if it is
    longer than 10 characters after stripping the handler answers with
    the success reply. *)
Theorem X8_keywords_any_case (w : World) (st : Store) (body variant : str) :
  In (lower variant) KEYWORDS ->
  contains variant body = true ->
  has_keyword body = true
  /\ (10 < length (strip body) ->
      exists data,
        result (whatsapp_webhook w (text_request body)) st
        = Reply (MsgSuccess data)).
Proof.
  intros Hk Hc.
  assert (H : has_keyword body = true).
  { unfold has_keyword. apply existsb_exists. exists (lower variant).
    split; [exact Hk | now apply contains_lower]. }
  split; [exact H|]. intros Hlen.
  unfold result, whatsapp_webhook. cbn [method text_request NumMedia].
  change (0 <? 0)%Z with false. cbv iota.
  rewrite text_path_run. cbn [Body text_request or_default].
  apply Nat.ltb_lt in Hlen. rewrite Hlen, H. eexists. reflexivity.
Qed.

Lemma X8_keywords_any_case_witness :
  has_keyword (L "Jane Doe, B.TECH at XYZ") = true
  /\ exists data,
      result (whatsapp_webhook offline
                               (text_request (L "Jane Doe, B.TECH at XYZ")))
             empty_store = Reply (MsgSuccess data).
Proof.
  destruct (X8_keywords_any_case offline empty_store
              (L "Jane Doe, B.TECH at XYZ") (L "B.TECH"))
    as [H1 H2]; [simpl; auto 10 | reflexivity |].
  split; [exact H1|]. apply H2. vm_compute. lia.
Defined.

End NamesAndKeywords.

(** ** More about the handler *)

Section HandlerShape.

(** The media path, branch by branch: the calls it makes are fetch calls,
    then read calls, then, only with the success reply, the model call
    and the append. *)
Lemma media_path_cases (w : World) (req : Request) (st : Store) :
  exists fetch reads,
    forallb fetch_call fetch = true
    /\ forallb read_call reads = true
    /\ (forall p content,
           In (CallSave p content) fetch ->
           p = L "downloads/" ++ L "resume_" ++ str_of_Z (clock w) ++ L "."
                 ++ file_extension_of (or_default (MediaContentType0 req) []))
    /\ ((exists c t,
            media_path w req st =
            (Reply (MsgSuccess
                      (record_for (generate_content w (build_prompt (c :: t))))),
             {| sheet :=
                  if append_row w (sheet st)
                       (row_of (record_for
                                  (generate_content w (build_prompt (c :: t)))))
                  then sheet st
                       ++ [row_of (record_for
                                     (generate_content
                                        w (build_prompt (c :: t))))]
                  else sheet st;
                calls :=
                  calls st ++ (fetch ++ reads)
                  ++ [CallGenerate (build_prompt (c :: t));
                      CallAppendRow
                        (row_of (record_for
                                   (generate_content
                                      w (build_prompt (c :: t)))))] |}))
        \/ (exists o,
               (forall data, o <> Reply (MsgSuccess data))
               /\ media_path w req st =
                  (o, {| sheet := sheet st;
                         calls := calls st ++ fetch ++ reads |}))).
Proof.
  unfold media_path. cbv zeta.
  match goal with
  | |- context [CallDownload ?u ?a] => set (auth := a)
  end.
  set (path := L "downloads/" ++ L "resume_" ++ str_of_Z (clock w) ++ L "."
                 ++ file_extension_of (or_default (MediaContentType0 req) [])).
  rewrite (bind_pure _ _ _ _ st (pure_record _)).
  destruct (makedirs w _).
  2:{ exists [CallMakeDirs (L "downloads")], [].
      repeat split; [intros p c [H|[]]; discriminate H|].
      right. exists Uncaught. split; [discriminate | reflexivity]. }
  rewrite (bind_pure _ _ _ _ _ (pure_record _)). run_step.
  destruct (http_get w _ _) as [[status content]|].
  2:{ exists [CallMakeDirs (L "downloads"); CallDownload (MediaUrl0 req) auth],
        [].
      repeat split; [intros p c [H|[H|[]]]; discriminate H|].
      right. exists Uncaught. split; [discriminate|].
      unfold ret. now rewrite <- app_assoc. }
  destruct (negb (status =? 200)%Z).
  { exists [CallMakeDirs (L "downloads"); CallDownload (MediaUrl0 req) auth],
      [].
    repeat split; [intros p c [H|[H|[]]]; discriminate H|].
    right. exists (Reply (MsgDownloadError status)).
    split; [discriminate|]. unfold ret. now rewrite <- app_assoc. }
  rewrite (bind_pure _ _ _ _ _ (pure_record _)). run_step.
  assert (Hfetch :
            forall p c,
              In (CallSave p c)
                 [CallMakeDirs (L "downloads");
                  CallDownload (MediaUrl0 req) auth;
                  CallSave path content] -> p = path).
  { intros p c [H|[H|[H|[]]]]; try discriminate H. now injection H. }
  destruct (save_file w _ _).
  2:{ exists [CallMakeDirs (L "downloads"); CallDownload (MediaUrl0 req) auth;
              CallSave path content], [].
      repeat split; [exact Hfetch|].
      right. exists Uncaught. split; [discriminate|].
      unfold ret. now rewrite <- !app_assoc. }
  match goal with
  | |- context [extract_media_text w ?e ?n ?p] =>
      destruct (reads_extract_media_text w e n p) as [x [tr [Hx Hr]]]
  end.
  exists [CallMakeDirs (L "downloads"); CallDownload (MediaUrl0 req) auth;
          CallSave path content], tr.
  split; [reflexivity|]. split; [exact Hr|]. split; [exact Hfetch|].
  rewrite (bind_pure _ _ _ _ _ Hx). run_step.
  destruct (strip x) as [|c t].
  { right. exists (Reply MsgNoText). split; [discriminate|].
    cbn [length Nat.eqb orb]. unfold ret. now rewrite <- !app_assoc. }
  destruct (_ || _).
  { right. exists (Reply MsgNoText). split; [discriminate|].
    unfold ret. now rewrite <- !app_assoc. }
  left. exists c, t. rewrite recover_and_persist_run. run_step.
  rewrite <- !app_assoc. reflexivity.
Qed.

(** X9: when the download answers with a status other than 200, the
    reply carries that status, nothing is saved, read, sent to the model
    or appended, and the sheet is as before. *)
Theorem X9_download_failure (w : World) (req : Request) (st : Store)
        (status : Z) (content : str) :
  method req = POST -> (0 < NumMedia req)%Z ->
  makedirs w (L "downloads") = true ->
  (forall auth, http_get w (MediaUrl0 req) auth = Some (status, content)) ->
  status <> 200%Z ->
  result (whatsapp_webhook w req) st = Reply (MsgDownloadError status)
  /\ sheet (final (whatsapp_webhook w req) st) = sheet st
  /\ exists auth,
      calls_made (whatsapp_webhook w req) st
      = [CallMakeDirs (L "downloads"); CallDownload (MediaUrl0 req) auth].
Proof.
  intros Hm Hn Hdir Hget Hs.
  assert (Hrun : exists auth,
             whatsapp_webhook w req st =
             (Reply (MsgDownloadError status),
              {| sheet := sheet st;
                 calls := calls st ++ [CallMakeDirs (L "downloads");
                                       CallDownload (MediaUrl0 req) auth] |})).
  { unfold whatsapp_webhook. rewrite Hm.
    apply Z.ltb_lt in Hn. rewrite Hn.
    unfold media_path. cbv zeta.
    match goal with
    | |- context [CallDownload ?u ?a] => exists a
    end.
    rewrite (bind_pure _ _ _ _ st (pure_record _)), Hdir.
    rewrite (bind_pure _ _ _ _ _ (pure_record _)), Hget.
    apply Z.eqb_neq in Hs. rewrite Hs. unfold ret. cbn [negb]. run_step.
    now rewrite <- app_assoc. }
  destruct Hrun as [auth Hrun].
  unfold calls_made, result, final.
  split; [now rewrite Hrun|]. split; [now rewrite Hrun|].
  exists auth. rewrite Hrun. cbn [snd calls].
  now rewrite skipn_app, skipn_all, Nat.sub_diag.
Qed.

Lemma X9_download_failure_witness :
  let w := with_download (fun _ _ => Some (403%Z, L "Forbidden")) offline in
  let req := media_request (L "https://media/1") (L "application/pdf") in
  result (whatsapp_webhook w req) empty_store = Reply (MsgDownloadError 403)
  /\ sheet (final (whatsapp_webhook w req) empty_store) = [].
Proof.
  cbv zeta.
  destruct (X9_download_failure
              (with_download (fun _ _ => Some (403%Z, L "Forbidden")) offline)
              (media_request (L "https://media/1") (L "application/pdf"))
              empty_store 403 (L "Forbidden"))
    as [Hr [Hs _]];
    [reflexivity | reflexivity | reflexivity | reflexivity | discriminate |].
  split; [exact Hr | exact Hs].
Defined.


(** X11: when the model call raises, the handler still answers with the
    success reply, the record it carries being the error record, and the
    row handed to the row store is five times N/A. *)
Theorem X11_model_failure_row (w : World) (req : Request) (st : Store)
        (data : pydict) :
  (forall prompt, exists e, generate_content w prompt = inl e) ->
  result (whatsapp_webhook w req) st = Reply (MsgSuccess data) ->
  (exists e, data = [(L "error", JString e)])
  /\ row_of data = [NA; NA; NA; NA; NA]
  /\ sheet (final (whatsapp_webhook w req) st)
     = if append_row w (sheet st) [NA; NA; NA; NA; NA]
       then sheet st ++ [[NA; NA; NA; NA; NA]] else sheet st.
Proof.
  intros Hfail H.
  destruct (webhook_success w req st data H) as [c [t [pre [Hd [_ Hs]]]]].
  destruct (Hfail (build_prompt (c :: t))) as [e He].
  rewrite He in Hd. cbn [record_for] in Hd. subst data.
  split; [now exists e|]. split; [reflexivity|]. exact Hs.
Qed.

Lemma X11_model_failure_row_witness :
  let req := text_request (L "email: jane@x.com") in
  result (whatsapp_webhook offline req) empty_store
  = Reply (MsgSuccess [(L "error", JString (L "model unavailable"))])
  /\ sheet (final (whatsapp_webhook offline req) empty_store)
     = [[NA; NA; NA; NA; NA]].
Proof.
  cbv zeta.
  assert (H : result (whatsapp_webhook offline
                        (text_request (L "email: jane@x.com"))) empty_store
              = Reply (MsgSuccess
                         [(L "error", JString (L "model unavailable"))]))
    by (vm_compute; reflexivity).
  split; [exact H|].
  destruct (X11_model_failure_row
              offline (text_request (L "email: jane@x.com")) empty_store
              [(L "error", JString (L "model unavailable"))])
    as [_ [_ Hs]];
    [intros prompt; now exists (L "model unavailable") | exact H |].
  rewrite Hs. reflexivity.
Defined.

(** X12: a file is only ever saved under [downloads/], with a name that
    holds no slash: [resume_], the time, a dot and the extension, which
    is [pdf], [png], [jpg] or what follows the last slash of the
    declared content type. *)
Theorem X12_saved_path (w : World) (req : Request) (st : Store)
        (p content : str) :
  In (CallSave p content) (calls_made (whatsapp_webhook w req) st) ->
  exists name,
    p = L "downloads/" ++ name
    /\ name = L "resume_" ++ str_of_Z (clock w) ++ L "."
                ++ file_extension_of (or_default (MediaContentType0 req) [])
    /\ ~ In "/"%char name.
Proof.
  intros Hin.
  assert (Hp : p = L "downloads/" ++ L "resume_" ++ str_of_Z (clock w)
                     ++ L "." ++ file_extension_of
                                   (or_default (MediaContentType0 req) [])).
  { revert Hin. unfold calls_made, final, whatsapp_webhook.
    destruct (method req).
    { unfold ret. cbn [snd]. rewrite skipn_all. intros []. }
    destruct (0 <? NumMedia req)%Z.
    - destruct (media_path_cases w req st)
        as [fetch [reads [_ [Hr [Hf [[c [t H]]|[o [_ H]]]]]]]];
        rewrite H; cbn [snd calls];
        rewrite skipn_app, skipn_all, Nat.sub_diag; cbn [skipn app];
        intros Hin.
      + apply in_app_or in Hin as [Hin|Hin].
        * apply in_app_or in Hin as [Hin|Hin]; [exact (Hf _ _ Hin)|].
          apply (proj1 (forallb_forall _ _) Hr) in Hin. discriminate Hin.
        * destruct Hin as [Hin|[Hin|[]]]; discriminate Hin.
      + apply in_app_or in Hin as [Hin|Hin]; [exact (Hf _ _ Hin)|].
        apply (proj1 (forallb_forall _ _) Hr) in Hin. discriminate Hin.
    - rewrite text_path_run.
      destruct (10 <? _); [destruct (has_keyword _)|];
        cbv zeta; cbn [snd calls];
        rewrite ?skipn_app, ?skipn_all, ?Nat.sub_diag; cbn [skipn app];
        intros Hin; try contradiction.
      destruct Hin as [Hin|[Hin|[]]]; discriminate Hin. }
  eexists. split; [exact Hp|]. split; [reflexivity|].
  intros Hs. apply in_app_or in Hs as [Hs|Hs];
    [revert Hs; apply absent_by_test; reflexivity|].
  apply in_app_or in Hs as [Hs|Hs]; [exact (str_of_Z_no_slash _ Hs)|].
  apply in_app_or in Hs as [Hs|Hs];
    [revert Hs; apply absent_by_test; reflexivity|].
  exact (file_extension_no_slash _ Hs).
Qed.

Lemma X12_saved_path_witness :
  let w := with_download (fun _ _ => Some (200%Z, L "x")) offline in
  let req := media_request (L "https://media/1") (L "image/../../etc/x") in
  In (CallSave (L "downloads/resume_1700000000.x") (L "x"))
     (calls_made (whatsapp_webhook w req) empty_store)
  /\ ~ In "/"%char (L "resume_1700000000.x").
Proof.
  cbv zeta.
  assert (Hin : In (CallSave (L "downloads/resume_1700000000.x") (L "x"))
                   (calls_made
                      (whatsapp_webhook
                         (with_download (fun _ _ => Some (200%Z, L "x"))
                                        offline)
                         (media_request (L "https://media/1")
                                        (L "image/../../etc/x")))
                      empty_store))
    by (vm_compute; auto).
  split; [exact Hin|].
  destruct (X12_saved_path _ _ _ _ _ Hin) as [name [Hp [_ Hn]]].
  injection Hp as <-. exact Hn.
Defined.



End HandlerShape.

(** ** Fences without a tag and objects inside prose *)

Section FencesAndProse.

Lemma skipn_length_app (a b : str) : skipn (length a) (a ++ b) = b.
Proof. induction a; simpl; auto. Qed.

(** A marker at the start goes with the white space after it. *)
Lemma re_sub_bol_fence_start_open (r : str) :
  re_sub_bol fence_start (L "```" ++ r) = lstrip r.
Proof.
  unfold re_sub_bol, fence_start. rewrite match_len_lit_ws.
  destruct (lstrip_split r) as [a [Ha _]].
  assert (E : L "```" ++ r = (L "```" ++ a) ++ lstrip r)
    by (rewrite <- app_assoc; congruence).
  rewrite E at 1 2. rewrite (length_app _ (lstrip r)), Nat.add_sub.
  apply skipn_length_app.
Qed.

Lemma plain_fence_trimmed (J : str) : trimmed (plain_fence J).
Proof.
  split; intros c t H.
  - injection H as <- _. reflexivity.
  - unfold plain_fence in H.
    replace (L "```" ++ [nl] ++ J ++ [nl] ++ L "```")
      with ((L "```" ++ [nl] ++ J ++ [nl] ++ L "``") ++ ["`"%char])
      in H by (repeat rewrite <- app_assoc; reflexivity).
    apply app_inj_tail in H as [_ <-]. reflexivity.
Qed.

Lemma remove_fences_plain_fence (J : str) :
  startswith (L "{") (strip J) = true ->
  contains (L "```json") J = false ->
  remove_fences (plain_fence J) = strip J.
Proof.
  intros Hobj Habs.
  destruct (strip_split J) as [a [b [EJ [Ha Hb]]]].
  destruct (startswith_brace _ Hobj) as [core Hcore].
  assert (Htrim : trimmed ("{"%char :: core))
    by (rewrite <- Hcore; apply strip_trimmed).
  rewrite Hcore in *.
  unfold remove_fences, plain_fence.
  rewrite re_sub_fence_json_absent.
  2:{ apply (contains_app_cut _ (L "```") _ nl);
        [reflexivity | simpl; intuition discriminate|].
      apply contains_app_cut;
        [exact Habs | simpl; intuition discriminate | reflexivity]. }
  replace (L "```" ++ [nl] ++ J ++ [nl] ++ L "```")
    with ((L "```" ++ [nl] ++ J) ++ nl :: L "```")
    by (rewrite <- !app_assoc; reflexivity).
  rewrite re_sub_fence_end.
  replace ((L "```" ++ [nl] ++ J) ++ [nl])
    with (L "```" ++ (nl :: J ++ [nl]))
    by (rewrite <- !app_assoc; reflexivity).
  rewrite re_sub_bol_fence_start_open.
  replace (lstrip (nl :: J ++ [nl])) with (("{"%char :: core) ++ b ++ [nl]).
  - apply (strip_wrap [] ("{"%char :: core) (b ++ [nl]));
      [exact Htrim | reflexivity|].
    rewrite forallb_app, Hb. reflexivity.
  - rewrite EJ at 1.
    replace (nl :: (a ++ ("{"%char :: core) ++ b) ++ [nl])
      with ((nl :: a) ++ ("{"%char :: core) ++ b ++ [nl])
      by (rewrite <- !app_assoc; reflexivity).
    rewrite lstrip_app_ws by (simpl; exact Ha). reflexivity.
Qed.

(** X14: a body that parses as a bare JSON object and holds no
    [```json] marker gives the same mapping when it stands inside a code
    fence without a tag. *)
Theorem X14_plain_fence (J : str) (d : pydict) :
  looks_like_object (strip J) = true ->
  loads_dict (strip J) = Some d ->
  contains (L "```json") J = false ->
  extract_json_from_response (plain_fence J) = Some d.
Proof.
  intros Hobj Hload Habs. unfold extract_json_from_response.
  assert (Hs : strip (plain_fence J) = plain_fence J).
  { rewrite <- (app_nil_r (plain_fence J)) at 1.
    apply (strip_wrap [] (plain_fence J) []);
      auto using plain_fence_trimmed. }
  rewrite Hs. change (looks_like_object (plain_fence J)) with false.
  cbv iota. rewrite remove_fences_plain_fence;
    [now rewrite Hobj, Hload | | exact Habs].
  unfold looks_like_object in Hobj.
  now apply andb_true_iff in Hobj as [H _].
Qed.

Lemma X14_plain_fence_witness :
  extract_json_from_response (plain_fence jane_only)
  = Some [(L "Full Name", JString (L "Jane Doe"))].
Proof.
  apply (X14_plain_fence jane_only); vm_compute; reflexivity.
Defined.

(** A starred class takes, first of all, every character up to the
    first one outside the class. *)
Lemma star_chr_head (p : ascii -> bool) (a : str) (c : ascii) (t : str)
      (n : nat) :
  forallb p a = true -> p c = false -> length (a ++ c :: t) <= n ->
  exists l, star_run (matches (Chr p)) n (a ++ c :: t) = (c :: t) :: l.
Proof.
  revert n. induction a as [|x a IH]; intros n Ha Hc Hn.
  - destruct n; [simpl in Hn; lia|]. rewrite star_run_S.
    cbn [app]. rewrite matches_chr, Hc. exists []. reflexivity.
  - destruct n; [simpl in Hn; lia|]. rewrite star_run_S.
    cbn [app]. rewrite matches_chr.
    cbn [forallb] in Ha. apply andb_true_iff in Ha as [Hx Ha].
    rewrite Hx. cbn [filter].
    assert (Hlt : (length (a ++ c :: t) <? length (x :: a ++ c :: t)) = true)
      by (apply Nat.ltb_lt; simpl; lia).
    rewrite Hlt. cbn [flat_map]. rewrite app_nil_r.
    destruct (IH n Ha Hc) as [l Hl]; [simpl in Hn; lia|].
    rewrite Hl. eexists. reflexivity.
Qed.

Lemma matches_seq (a b : regex) (s : str) :
  matches (Seq a b) s = flat_map (matches b) (matches a s).
Proof. reflexivity. Qed.

Lemma matches_star (a : regex) (s : str) :
  matches (Star a) s = star_run (matches a) (length s) s.
Proof. reflexivity. Qed.

Lemma json_pattern_needs_open (c : ascii) (s : str) :
  c <> "{"%char -> match_len json_pattern (c :: s) = None.
Proof.
  intros H. unfold match_len, json_pattern.
  rewrite matches_seq, matches_chr.
  destruct (Ascii.eqb "{" c) eqn:E; [|reflexivity].
  apply Ascii.eqb_eq in E. congruence.
Qed.

(** The JSON pattern takes an object without inner braces whole. *)
Lemma json_pattern_flat_object (inner post : str) :
  ~ In "{"%char inner -> ~ In "}"%char inner ->
  match_len json_pattern (L "{" ++ inner ++ L "}" ++ post)
  = Some (length (L "{" ++ inner ++ L "}")).
Proof.
  intros Ho Hc.
  assert (Hin : forallb (fun c => negb (Ascii.eqb c "{" || Ascii.eqb c "}"))
                        inner = true).
  { apply forallb_forall. intros x Hx.
    destruct (Ascii.eqb x "{") eqn:E1;
      [apply Ascii.eqb_eq in E1; subst x; contradiction|].
    destruct (Ascii.eqb x "}") eqn:E2;
      [apply Ascii.eqb_eq in E2; subst x; contradiction|].
    reflexivity. }
  assert (Hm : exists l,
             matches json_pattern ("{"%char :: inner ++ "}"%char :: post)
             = post :: l).
  { unfold json_pattern. rewrite matches_seq, matches_chr.
    change (Ascii.eqb "{" "{") with true. cbv iota. cbn [flat_map].
    rewrite app_nil_r, matches_seq, matches_star. unfold not_brace.
    destruct (star_chr_head _ inner "}"%char post
                (length (inner ++ "}"%char :: post)) Hin eq_refl
                (Nat.le_refl _)) as [l Hl].
    rewrite Hl. cbn [flat_map].
    rewrite matches_seq, matches_star. cbn [length]. rewrite star_run_S.
    rewrite (matches_seq (Chr (Ascii.eqb "{"))), matches_chr.
    change (Ascii.eqb "{" "}") with false. cbv iota.
    cbn [flat_map filter app]. rewrite matches_chr.
    change (Ascii.eqb "}" "}") with true. cbv iota. cbn [app].
    eexists. reflexivity. }
  destruct Hm as [l Hm]. unfold match_len.
  change (L "{" ++ inner ++ L "}" ++ post)
    with ("{"%char :: inner ++ "}"%char :: post).
  rewrite Hm. f_equal.
  change (L "{" ++ inner ++ L "}") with ("{"%char :: inner ++ ["}"%char]).
  cbn [length]. rewrite !length_app. cbn [length]. lia.
Qed.

Lemma findall_scan_skip (r : regex) (a b : str) :
  findall_scan r (length a) (a ++ b) = findall_scan r 0 b.
Proof. induction a as [|c a IH]; simpl; auto. Qed.

Lemma findall_scan_prefix (r : regex) (a s : str) :
  (forall x y, a = x ++ y -> y <> [] -> match_len r (y ++ s) = None) ->
  findall_scan r 0 (a ++ s) = findall_scan r 0 s.
Proof.
  induction a as [|c a IH]; intros H; [reflexivity|].
  change ((c :: a) ++ s) with (c :: a ++ s). cbn [findall_scan].
  assert (H0 := H [] (c :: a) eq_refl).
  cbn [app] in H0. rewrite H0 by discriminate.
  apply IH. intros x y -> Hy. apply (H (c :: x) y eq_refl Hy).
Qed.

Lemma findall_scan_hit (r : regex) (a b : str) :
  a <> [] -> match_len r (a ++ b) = Some (length a) ->
  exists rest, findall_scan r 0 (a ++ b) = a :: rest.
Proof.
  destruct a as [|c a]; [congruence|]. intros _ H.
  change ((c :: a) ++ b) with (c :: a ++ b) in *.
  cbn [findall_scan]. rewrite H. cbn [length].
  eexists. f_equal.
  change (c :: a ++ b) with ((c :: a) ++ b).
  rewrite firstn_app, Nat.sub_diag.
  change (S (length a)) with (length (c :: a)). rewrite firstn_all.
  cbn [firstn]. apply app_nil_r.
Qed.

Lemma startswith_head_absent (c : ascii) (p b : str) :
  ~ In c b -> startswith (c :: p) b = false.
Proof.
  destruct b as [|x b]; [reflexivity|]. intros H. cbn [startswith].
  destruct (Ascii.eqb c x) eqn:E; [|reflexivity].
  apply Ascii.eqb_eq in E. subst x. simpl in H. tauto.
Qed.

(** Without a backtick there is no fence to remove. *)
Lemma no_backtick_unfenced (s : str) :
  ~ In "`"%char s -> remove_fences s = strip s.
Proof.
  intros H. unfold remove_fences.
  assert (H1 : re_sub fence_json s = s).
  { apply sub_scan_no_match. intros a b ->. apply match_len_lit_none.
    change (L "```json") with ("`"%char :: L "``json").
    apply startswith_head_absent. exact (not_in_suffix _ _ _ H). }
  assert (H2 : re_sub fence_end s = s).
  { apply sub_scan_no_match. intros a b ->. apply match_len_lit_none.
    change (L "```") with ("`"%char :: L "``").
    apply startswith_head_absent. exact (not_in_suffix _ _ _ H). }
  rewrite H1, H2, re_sub_bol_fence_start; [reflexivity|].
  change (L "```") with ("`"%char :: L "``").
  now apply startswith_head_absent.
Qed.

Lemma strip_idempotent (s : str) : strip (strip s) = strip s.
Proof.
  rewrite <- (app_nil_r (strip s)) at 1.
  apply (strip_wrap [] (strip s) []); auto using strip_trimmed.
Qed.

Lemma lstrip_app_solid (a : str) (c : ascii) (t : str) :
  is_space c = false -> lstrip (a ++ c :: t) = lstrip a ++ c :: t.
Proof.
  intros Hc. induction a as [|x a IH]; simpl; [now rewrite Hc|].
  destruct (is_space x); [exact IH | reflexivity].
Qed.

(** The strip of prose around an object keeps the object. *)
Lemma strip_around_object (pre inner post : str) :
  strip (pre ++ (L "{" ++ inner ++ L "}") ++ post)
  = lstrip pre ++ (L "{" ++ inner ++ L "}") ++ rstrip post.
Proof.
  unfold strip.
  change (pre ++ (L "{" ++ inner ++ L "}") ++ post)
    with (pre ++ "{"%char :: (inner ++ L "}") ++ post).
  rewrite lstrip_app_solid by reflexivity.
  unfold rstrip.
  replace (lstrip pre ++ "{"%char :: (inner ++ L "}") ++ post)
    with ((lstrip pre ++ L "{" ++ inner) ++ "}"%char :: post)
    by (rewrite <- !app_assoc; reflexivity).
  rewrite rev_app_distr. cbn [rev]. rewrite <- app_assoc. cbn [app].
  rewrite lstrip_app_solid by reflexivity.
  rewrite rev_app_distr. cbn [rev]. rewrite rev_involutive.
  rewrite <- !app_assoc. reflexivity.
Qed.

(** X15: an object without inner braces that parses, standing in prose
    that holds neither brace nor backtick, is found by the parsing
    chain: the mapping returned is the object's. *)
Theorem X15_object_in_prose (pre inner post : str) (d : pydict) :
  ~ In "{"%char (pre ++ inner ++ post) ->
  ~ In "}"%char (pre ++ inner ++ post) ->
  ~ In "`"%char (pre ++ inner ++ post) ->
  loads_dict (L "{" ++ inner ++ L "}") = Some d ->
  extract_json_from_response (pre ++ (L "{" ++ inner ++ L "}") ++ post)
  = Some d.
Proof.
  intros Ho Hc Hb Hload.
  assert (Hsub : forall c, ~ In c (pre ++ inner ++ post) ->
                           ~ In c (lstrip pre) /\ ~ In c inner
                           /\ ~ In c (rstrip post)).
  { intros c H. destruct (lstrip_split pre) as [a [Ea _]].
    destruct (rstrip_split post) as [b [Eb _]].
    repeat split; intros X; apply H.
    - rewrite Ea. apply in_or_app. left. apply in_or_app. now right.
    - apply in_or_app. right. apply in_or_app. now left.
    - rewrite Eb. apply in_or_app. right. apply in_or_app. right.
      apply in_or_app. now left. }
  destruct (Hsub _ Ho) as [Ho1 [Ho2 Ho3]].
  destruct (Hsub _ Hc) as [Hc1 [Hc2 Hc3]].
  destruct (Hsub _ Hb) as [Hb1 [Hb2 Hb3]].
  unfold extract_json_from_response.
  rewrite strip_around_object.
  remember (lstrip pre) as p' eqn:Ep'.
  remember (rstrip post) as q' eqn:Eq'.
  remember (L "{" ++ inner ++ L "}") as J eqn:EJ.
  assert (Hs : strip (p' ++ J ++ q') = p' ++ J ++ q')
    by (rewrite Ep', EJ, Eq', <- strip_around_object;
        apply strip_idempotent).
  assert (Htick : ~ In "`"%char (p' ++ J ++ q')).
  { intros X. apply in_app_or in X as [X|X]; [contradiction|].
    apply in_app_or in X as [X|X]; [|contradiction].
    rewrite EJ in X. apply in_app_or in X as [[X|[]]|X]; [discriminate X|].
    apply in_app_or in X as [X|[X|[]]]; [contradiction | discriminate X]. }
  assert (Hsame : looks_like_object (p' ++ J ++ q') = true ->
                  loads_dict (p' ++ J ++ q') = Some d).
  { intros Hl. unfold looks_like_object in Hl.
    apply andb_true_iff in Hl as [Hst Hen].
    assert (Ep : p' = []).
    { destruct p' as [|c t]; [reflexivity|].
      apply startswith_brace in Hst as [u Hu]. injection Hu as -> _.
      exfalso. apply Ho1. now left. }
    assert (Eq : q' = []).
    { destruct (rev q') as [|c m] eqn:Er.
      - apply (f_equal (@rev ascii)) in Er.
        now rewrite rev_involutive in Er.
      - exfalso. unfold endswith in Hen.
        rewrite !rev_app_distr, Er in Hen.
        change (rev (L "}")) with ["}"%char] in Hen.
        cbn [app startswith] in Hen. rewrite andb_true_r in Hen.
        apply Ascii.eqb_eq in Hen. subst c.
        apply Hc3, in_rev. rewrite Er. now left. }
    now rewrite Ep, Eq, app_nil_r. }
  destruct (looks_like_object (p' ++ J ++ q')) eqn:Hl.
  { now rewrite (Hsame eq_refl). }
  rewrite (no_backtick_unfenced _ Htick), Hs, Hl.
  assert (Hfind : exists rest,
             re_findall json_pattern (p' ++ J ++ q') = J :: rest).
  { unfold re_findall. rewrite findall_scan_prefix.
    - apply findall_scan_hit; [rewrite EJ; discriminate|].
      rewrite EJ. rewrite <- !app_assoc.
      rewrite (json_pattern_flat_object inner q' Ho2 Hc2).
      reflexivity.
    - intros x y E Hy. destruct y as [|c y]; [congruence|].
      apply json_pattern_needs_open. intros ->.
      apply Ho1. rewrite E. apply in_or_app. right. now left. }
  destruct Hfind as [rest ->]. cbn [first_some]. now rewrite Hload.
Qed.

Lemma X15_object_in_prose_witness :
  extract_json_from_response
    (L "Here is the result: " ++ jane_only ++ L " Let me know!")
  = Some [(L "Full Name", JString (L "Jane Doe"))].
Proof.
  apply (X15_object_in_prose (L "Here is the result: ")
                             (Q "~Full Name~: ~Jane Doe~")
                             (L " Let me know!"));
    [apply absent_by_test; reflexivity | apply absent_by_test; reflexivity
     | apply absent_by_test; reflexivity | vm_compute; reflexivity].
Defined.

End FencesAndProse.

(** ** The media path after the download *)

Section MediaText.

(** X16: on the media path there is no test of length or keywords: once
    the attachment is downloaded and saved, the reply is the success
    reply with the record recovered from the extracted text whenever
    that text is not empty, and the "could not extract text" reply,
    without any model call or append, when it is empty. *)
Theorem X16_media_text_gate (w : World) (req : Request) (st : Store)
        (content : str) :
  method req = POST -> (0 < NumMedia req)%Z ->
  makedirs w (L "downloads") = true ->
  (forall auth, http_get w (MediaUrl0 req) auth = Some (200%Z, content)) ->
  (forall path bytes, save_file w path bytes = true) ->
  let file_extension :=
    file_extension_of (or_default (MediaContentType0 req) []) in
  let file_name :=
    L "resume_" ++ str_of_Z (clock w) ++ L "." ++ file_extension in
  let text :=
    result (extract_media_text w file_extension file_name
                               (L "downloads/" ++ file_name)) st in
  (text = [] ->
   result (whatsapp_webhook w req) st = Reply MsgNoText
   /\ sheet (final (whatsapp_webhook w req) st) = sheet st
   /\ forallb (fun c => fetch_call c || read_call c)
              (calls_made (whatsapp_webhook w req) st) = true)
  /\ (text <> [] ->
      result (whatsapp_webhook w req) st
      = Reply (MsgSuccess (result (extract_resume_info w text) st))).
Proof.
  intros Hm Hn Hdir Hget Hsave file_extension file_name text.
  destruct (reads_extract_media_text w file_extension file_name
              (L "downloads/" ++ file_name)) as [x [tr [Hx Hr]]].
  assert (Htext : text = strip x) by (apply (pure_result _ _ _ st Hx)).
  assert (Hrun : whatsapp_webhook w req st = media_path w req st).
  { unfold whatsapp_webhook. rewrite Hm.
    apply Z.ltb_lt in Hn. now rewrite Hn. }
  assert (Hmedia :
            exists auth,
              media_path w req st =
              (text <- (fun s => (strip x, s)) ;;
               if (length text =? 0) || (length (strip text) =? 0)
               then ret (Reply MsgNoText)
               else
                 data <- extract_resume_info w text ;;
                 persist w data ;;
                 ret (Reply (MsgSuccess data)))
                {| sheet := sheet st;
                   calls := calls st
                            ++ [CallMakeDirs (L "downloads");
                                CallDownload (MediaUrl0 req) auth;
                                CallSave (L "downloads/" ++ file_name)
                                         content] ++ tr |}).
  { unfold media_path. cbv zeta. fold file_extension. fold file_name.
    match goal with
    | |- context [CallDownload ?u ?a] => exists a
    end.
    rewrite (bind_pure _ _ _ _ st (pure_record _)), Hdir.
    rewrite (bind_pure _ _ _ _ _ (pure_record _)), Hget.
    change (negb (200 =? 200)%Z) with false. cbv iota.
    rewrite (bind_pure _ _ _ _ _ (pure_record _)), Hsave.
    rewrite (bind_pure _ _ _ _ _ Hx). run_step.
    unfold bind at 1. run_step. rewrite <- !app_assoc. reflexivity. }
  destruct Hmedia as [auth Hmedia].
  unfold bind at 1 in Hmedia. cbv beta iota zeta in Hmedia.
  cbn [fst snd] in Hmedia.
  unfold calls_made, result, final. rewrite Hrun, Hmedia, Htext.
  clear Hmedia Hrun. split.
  - intros E. rewrite E. cbn [length Nat.eqb orb]. unfold ret.
    cbn [fst snd sheet calls].
    split; [reflexivity|]. split; [reflexivity|].
    rewrite skipn_app, skipn_all, Nat.sub_diag. cbn [skipn app forallb].
    cbn [fetch_call read_call orb andb].
    apply forallb_forall. intros c Hc.
    rewrite (proj1 (forallb_forall _ _) Hr c Hc). apply orb_true_r.
  - intros E. rewrite strip_idempotent.
    destruct (strip x) as [|c t] eqn:Es; [congruence|].
    cbn [length Nat.eqb orb].
    rewrite recover_and_persist_run. cbn [fst].
    fold (result (extract_resume_info w (c :: t)) st).
    now rewrite (pure_result _ _ _ st (pure_extract_resume_info w c t)).
Qed.

Lemma X16_media_text_gate_witness :
  result (whatsapp_webhook (pdf_upload jane_only)
            (media_request (L "https://media/1") (L "application/pdf")))
         empty_store
  = Reply (MsgSuccess [(L "Full Name", JString (L "Jane Doe"))]).
Proof.
  destruct (X16_media_text_gate
              (pdf_upload jane_only)
              (media_request (L "https://media/1") (L "application/pdf"))
              empty_store (L "%PDF-1.4"))
    as [_ H];
    [reflexivity | reflexivity | reflexivity | reflexivity | reflexivity |].
  rewrite H; [vm_compute; reflexivity | vm_compute; discriminate].
Defined.

(** X17: for a file read as a PDF, when the text of the PDF extractor is
    shorter than 50 the file is also read as an image and the longer of
    the two texts is returned, the PDF text on a tie; with 50 characters
    or more the PDF text is returned and the file is not opened as an
    image. *)
Theorem X17_pdf_image_fallback (w : World) (ext name path : str)
        (st : Store) :
  str_eqb (lower ext) (L "pdf") || endswith (L ".pdf") (lower name) = true ->
  exists pdf_text ocr_text,
    (forall s, result (extract_text_from_pdf w path) s = pdf_text)
    /\ (forall s, result (extract_text_from_image w path) s = ocr_text)
    /\ (length pdf_text < 50 ->
        length (result (extract_media_text w ext name path) st)
        = Nat.max (length pdf_text) (length ocr_text)
        /\ (length ocr_text <= length pdf_text ->
            result (extract_media_text w ext name path) st = pdf_text)
        /\ (length pdf_text < length ocr_text ->
            result (extract_media_text w ext name path) st = ocr_text))
    /\ (50 <= length pdf_text ->
        result (extract_media_text w ext name path) st = pdf_text
        /\ forall p,
            ~ In (CallImageOpen p)
                 (calls_made (extract_media_text w ext name path) st)).
Proof.
  intros Hpdf.
  destruct (pdf_calls_extract_text_from_pdf w path) as [x [tr [H Hr]]].
  destruct (pure_extract_text_from_image w path) as [y [tr' H']].
  exists (strip x), (strip y).
  split; [intros s; apply (pure_result _ _ _ s H)|].
  split; [intros s; apply (pure_result _ _ _ s H')|].
  unfold calls_made, result, final, extract_media_text. rewrite Hpdf.
  rewrite (bind_pure _ _ _ _ st H), !strip_idempotent.
  split.
  - intros Hlen. apply Nat.ltb_lt in Hlen. rewrite Hlen.
    rewrite (bind_pure _ _ _ _ _ H'), !strip_idempotent.
    destruct (length (strip x) <? length (strip y)) eqn:E; unfold ret;
      cbn [fst].
    + apply Nat.ltb_lt in E.
      split; [lia | split; [intros; lia | intros; reflexivity]].
    + apply Nat.ltb_ge in E.
      split; [lia | split; [intros; reflexivity | intros; lia]].
  - intros Hlen. apply Nat.ltb_ge in Hlen. rewrite Hlen. unfold ret.
    cbn [fst snd calls]. split; [reflexivity|]. intros p Hin.
    rewrite skipn_app, skipn_all, Nat.sub_diag in Hin. cbn [skipn app] in Hin.
    apply (proj1 (forallb_forall _ _) Hr) in Hin. discriminate Hin.
Qed.

Lemma X17_pdf_image_fallback_witness :
  let w := with_files (fun _ => Some [Some (L "abc")]) (fun _ => None)
                      (fun _ => Some 0)
                      (fun _ _ => Some (L "Jane Doe, jane@x.com"))
                      offline in
  result (extract_media_text w (L "pdf") (L "resume_1.pdf")
                             (L "downloads/resume_1.pdf")) empty_store
  = L "Jane Doe, jane@x.com".
Proof.
  cbv zeta.
  destruct (X17_pdf_image_fallback
              (with_files (fun _ => Some [Some (L "abc")]) (fun _ => None)
                          (fun _ => Some 0)
                          (fun _ _ => Some (L "Jane Doe, jane@x.com"))
                          offline)
              (L "pdf") (L "resume_1.pdf") (L "downloads/resume_1.pdf")
              empty_store eq_refl)
    as [pdf_text [ocr_text [Hp [Ho [Hshort _]]]]].
  rewrite <- (Hp empty_store), <- (Ho empty_store) in Hshort.
  destruct Hshort as [_ [_ H]]; [vm_compute; lia|].
  rewrite H; [reflexivity | vm_compute; lia].
Defined.

End MediaText.
